(** * Wallet transaction flow: a model of [src/domain/transaction.ts]

    The development follows the TypeScript module function by function:
    [computeBalances] (the balance aggregator) and [computeTxDetailsExtended]
    (the transaction flow computer together with the cache-aside resolution of
    the block header).

    Conventions.
    - A JavaScript [number] holding an amount is an integer-valued double: an
      integer of [Z], with [+] and [-] rounding their exact result to the 53
      significant bits of a double ([roundDouble]); sums stay far below the
      largest double.
    - A [Record<string, number>] is a finite map [gmap string Z]; reading a
      missing key gives [undefined], modelled by [None].
    - An [await]ed call to a collaborator either resolves or rejects; the
      asynchronous function is a computation in a state-and-exception monad
      over the part of the world it can change: the persisted block headers
      and the chain-source connections it opened, fetched from and closed. *)

From stdpp Require Import gmap strings list fin_maps.
From Stdlib Require Import ZArith Ascii String Permutation Lia DecimalString.

Local Open Scope string_scope.
Local Open Scope Z_scope.

(** ** Data model (lines 5-47 of the source) *)

Record UnblindingData := {
  ud_value : Z;
  ud_asset : string;
  ud_assetBlindingFactor : string;
  ud_valueBlindingFactor : string
}.

Record UnblindedOutput := {
  uo_txID : string;
  uo_vout : nat;
  uo_blindingData : option UnblindingData
}.

(** The double nearest to an integer: the integer itself up to 53
    significant bits, otherwise the nearest multiple of the power of two
    that leaves 53 bits, a tie going to the even one. *)
Definition roundDouble (z : Z) : Z :=
  let n := Z.log2 (Z.abs z) in
  if n <? 53 then z
  else
    let s := n - 52 in
    let q := Z.abs z / 2 ^ s in
    let r := Z.abs z mod 2 ^ s in
    let half := 2 ^ (s - 1) in
    let q' := if (half <? r) || ((r =? half) && Z.odd q) then q + 1 else q in
    Z.sgn z * (q' * 2 ^ s).

(** [a + b] and [a - b] on numbers that are integer-valued doubles: the
    exact result, rounded (IEEE 754 addition is correctly rounded; results
    stay below the largest double). *)
Definition jsAdd (a b : Z) : Z := roundDouble (a + b).

Definition jsSub (a b : Z) : Z := roundDouble (a - b).

(** [x || 0] where [x] is a number or [undefined]: the falsy values of that
    type are [undefined] and [0]. *)
Definition orZero (x : option Z) : Z :=
  match x with
  | Some v => if v =? 0 then 0 else v
  | None => 0
  end.

(** [m[k] = (m[k] || 0) + v], the accumulation both functions perform. *)
Definition credit (k : string) (v : Z) (m : gmap string Z) : gmap string Z :=
  <[k := jsAdd (orZero (m !! k)) v]> m.

(** ** computeBalances (lines 49-57) *)

(** The body of the [for ... of] loop, on the running [balances]. *)
Definition computeBalances_body (balances : gmap string Z) (utxo : UnblindedOutput)
  : gmap string Z :=
  match uo_blindingData utxo with
  | None => balances
  | Some bd => credit (ud_asset bd) (ud_value bd) balances
  end.

Definition computeBalances (utxos : list UnblindedOutput) : gmap string Z :=
  foldl computeBalances_body ∅ utxos.


(** ** Transactions as liquidjs-lib hands them over *)

Abbreviation bytes := (list Byte.byte).

Record Output := {
  out_script : bytes;
  out_value : bytes;
  out_asset : bytes
}.

Record Input := {
  in_hash : bytes;
  in_index : nat
}.

Record Transaction := {
  tx_outs : list Output;
  tx_ins : list Input
}.

(** The two accessors of [ElementsValue] the source reads. [number] is the
    amount of an explicit value; on a confidential value the getter throws
    (see [getNumber] below). *)
Record ElementsValue := {
  isConfidential : bool;
  number : Z
}.

(** An element of a decompiled script: an opcode or pushed data. *)
Inductive Chunk :=
| Opcode (op : Z)
| Push (data : bytes).

(** The keys of liquidjs-lib's [networks] table. *)
Inductive NetworkString := liquid | testnet | regtest.

#[global] Instance NetworkString_eq_dec : EqDecision NetworkString.
Proof. solve_decision. Defined.

#[global] Instance NetworkString_countable : Countable NetworkString.
Proof.
  refine (inj_countable'
            (λ n, match n with liquid => 0 | testnet => 1 | regtest => 2 end)%nat
            (λ k, match k with O => liquid | S O => testnet | _ => regtest end) _).
  intros []; reflexivity.
Defined.

(** What the module imports from liquidjs-lib. The library is not part of
    the repository; its functions are parameters of the model. A parser that
    throws answers [inl] with the message; the decoders of values, assets
    and scripts are taken on the fields of a transaction that parsed. *)
Class LiquidJS := {
  Transaction_fromHex : string → string + Transaction;
  Transaction_getId : Transaction → string;
  ElementsValue_fromBytes : bytes → ElementsValue;
  AssetHash_fromBytes_hex : bytes → string;
  script_decompile : bytes → option (list Chunk);
  OP_RETURN : Z;
  networks_assetHash : NetworkString → string
}.

(** [Buffer.toString('hex')] *)
Definition hexDigit (n : N) : ascii :=
  nth (N.to_nat n) (list_ascii_of_string "0123456789abcdef") "0"%char.

Fixpoint toHex (b : bytes) : string :=
  match b with
  | [] => ""
  | x :: r =>
      String (hexDigit (Byte.to_N x / 16)) (String (hexDigit (Byte.to_N x mod 16)) (toHex r))
  end.

(** ** Records of the module (lines 20-36) *)

(** Modelled from the spec: the type [BlockHeader] is declared in
    [./chainsource], outside the sources at hand. The spec calls it an opaque
    entity keyed by (network, height); the header carries its height and
    the rest of it is left opaque. *)
Record BlockHeader := {
  bh_height : Z;
  bh_rest : string
}.

Record TxDetails := {
  height : option Z;
  hex : option string
}.

Record TxDetailsExtended := {
  x_height : option Z;
  x_hex : option string;
  txID : string;
  txFlow : gmap string Z;
  feeAmount : Z;
  blockHeader : option BlockHeader
}.

(** ** The world and the computations over it *)

(** What happens to chain-source connections. *)
Inductive Event :=
| Acquired
| Fetched (h : Z)
| Closed.

#[global] Instance Event_eq_dec : EqDecision Event.
Proof. solve_decision. Defined.

Record World := {
  headers : gmap (NetworkString * Z) BlockHeader;
  journal : list Event
}.

(** The two errors the function constructs itself, ['tx hex not found'] and
    ['network not found'] (the spec's MissingTransactionData and
    NetworkNotConfigured), and whatever a collaborator threw or rejected
    with, which passes through unchanged. *)
Inductive Exn :=
| TxHexNotFound
| NetworkNotFound
| Foreign (reason : string).

Inductive Outcome (A : Type) :=
| Returned (a : A)
| Thrown (e : Exn).
Arguments Returned {A} a.
Arguments Thrown {A} e.

Definition Async (A : Type) : Type := World → Outcome A * World.

Definition ret {A} (a : A) : Async A := λ w, (Returned a, w).

Definition throw {A} (e : Exn) : Async A := λ w, (Thrown e, w).

Definition bind {A B} (m : Async A) (k : A → Async B) : Async B :=
  λ w, match m w with
       | (Returned a, w') => k a w'
       | (Thrown e, w') => (Thrown e, w')
       end.

Notation "'let*' x ':=' m 'in' k" := (bind m (λ x, k))
  (at level 10, x name, m at level 100, k at level 200, only parsing).
Notation "m '>>' k" := (bind m (λ _, k))
  (at level 62, right associativity, only parsing).

(** [await] of a collaborator's promise. *)
Definition await {A} (r : string + A) : Async A :=
  match r with
  | inl reason => throw (Foreign reason)
  | inr a => ret a
  end.

Definition emit (e : Event) : Async unit :=
  λ w, (Returned tt, {| headers := headers w; journal := journal w ++ [e] |}).

(** The getter [elementsValue.number]: liquidjs-lib throws
    ['Invalid value prefix'] when the value is a commitment. *)
Definition getNumber (v : ElementsValue) : Async Z :=
  if isConfidential v then throw (Foreign "Invalid value prefix")
  else ret (number v).

(** [for (let i = start; ...; i++)] over an array, threading the variables
    the body assigns. *)
Fixpoint forIndex {A V} (body : nat → A → V → Async V) (i : nat) (l : list A) (s : V)
  : Async V :=
  match l with
  | [] => ret s
  | x :: l' => let* s' := body i x s in forIndex body (S i) l' s'
  end.

(** ** The repositories (imported interfaces) *)

Record ChainSource := {
  cs_fetchBlockHeader : Z → string + option BlockHeader;
  cs_close : string + unit
}.

Record AppRepository := {
  getNetwork : string + option NetworkString;
  getChainSource : NetworkString → string + option ChainSource
}.

Record WalletRepository := {
  getOutputBlindingData : string → nat → string + option UnblindedOutput;
  getWitnessUtxo : string → nat → string + option Output
}.

(** Modelled from the spec: the implementation of [BlockheadersRepository]
    is not among the sources. The spec gives [getCachedBlockHeader(network,
    height)] returning an optional header and [storeBlockHeader(network,
    header)], headers being persisted keyed by (network, height). The store
    is the [headers] map of the world. *)
Definition getBlockHeader (network : NetworkString) (h : Z) : Async (option BlockHeader) :=
  λ w, (Returned (headers w !! (network, h)), w).

Definition setBlockHeader (network : NetworkString) (bh : BlockHeader) : Async unit :=
  λ w, (Returned tt,
        {| headers := <[(network, bh_height bh) := bh]> (headers w); journal := journal w |}).

(** [appRepository.getChainSource(network)] hands out a fresh connection. *)
Definition acquireChainSource (app : AppRepository) (network : NetworkString)
  : Async (option ChainSource) :=
  let* cs := await (getChainSource app network) in
  match cs with
  | Some c => emit Acquired >> ret (Some c)
  | None => ret None
  end.

Definition fetchBlockHeader (cs : ChainSource) (h : Z) : Async (option BlockHeader) :=
  emit (Fetched h) >> await (cs_fetchBlockHeader cs h).

Definition close (cs : ChainSource) : Async unit :=
  emit Closed >> await (cs_close cs).

(** ** computeTxDetailsExtended (lines 103-191) *)

Section Flow.
Context `{LiquidJS}.

(** [m[k] = (m[k] || 0) - v] *)
Definition debit (k : string) (v : Z) (m : gmap string Z) : gmap string Z :=
  <[k := jsSub (orZero (m !! k)) v]> m.

(** [script.decompile(s)?.includes(script.OPS.OP_RETURN)] (line 135) *)
Definition isOpReturn (c : Chunk) : bool :=
  match c with
  | Opcode op => op =? OP_RETURN
  | Push _ => false
  end.

Definition includesOpReturn (s : bytes) : bool :=
  match script_decompile s with
  | Some chunks => existsb isOpReturn chunks
  | None => false
  end.

(** Body of the loop over the outputs (lines 118-137), on the pair of the
    variables [feeAmount] and [txFlow]. The fee branch reads [number] before
    any test of [isConfidential]; line 137 reads it on an explicit value,
    where the getter returns. *)
Definition outputBody (wallet : WalletRepository) (txID : string)
    (outIndex : nat) (output : Output) (st : Z * gmap string Z)
  : Async (Z * gmap string Z) :=
  let elementsValue := ElementsValue_fromBytes (out_value output) in
  if decide (List.length (out_script output) = 0%nat) then
    let* fee := getNumber elementsValue in
    ret (fee, st.2)
  else if isConfidential elementsValue then
    let* data := await (getOutputBlindingData wallet txID outIndex) in
    match data with
    | None => ret st
    | Some d =>
        match uo_blindingData d with
        | None => ret st
        | Some bd => ret (st.1, credit (ud_asset bd) (ud_value bd) st.2)
        end
    end
  else if includesOpReturn (out_script output) then ret st
  else
    let asset := AssetHash_fromBytes_hex (out_asset output) in
    ret (st.1, credit asset (number elementsValue) st.2).

(** Body of the loop over the inputs (lines 141-156), on [txFlow]; line 156
    reads [number] on an explicit value. *)
Definition inputBody (wallet : WalletRepository)
    (inIndex : nat) (input : Input) (flow : gmap string Z)
  : Async (gmap string Z) :=
  let inputTxID := toHex (rev (in_hash input)) in
  let* output := await (getWitnessUtxo wallet inputTxID (in_index input)) in
  match output with
  | None => ret flow
  | Some output =>
      let elementsValue := ElementsValue_fromBytes (out_value output) in
      if isConfidential elementsValue then
        let* data := await (getOutputBlindingData wallet inputTxID (in_index input)) in
        match data with
        | None => ret flow
        | Some d =>
            match uo_blindingData d with
            | None => ret flow
            | Some bd => ret (debit (ud_asset bd) (ud_value bd) flow)
            end
        end
      else
        let asset := AssetHash_fromBytes_hex (out_asset output) in
        ret (debit asset (number elementsValue) flow)
  end.

(** Lines 113-157: both loops, from [feeAmount = 0] and [txFlow = {}]. *)
Definition passes (wallet : WalletRepository) (transaction : Transaction)
  : Async (Z * gmap string Z) :=
  let* st := forIndex (outputBody wallet (Transaction_getId transaction)) 0
         (tx_outs transaction) (0, ∅) in
  let* flow := forIndex (inputBody wallet) 0 (tx_ins transaction) st.2 in
  ret (st.1, flow).

(** Lines 173-181. [txFlow[k] + feeAmount] is [NaN] when the key is missing,
    and [NaN === 0] is false. *)
Definition selfTransferCorrection (native : string) (fee : Z) (flow : gmap string Z)
  : gmap string Z :=
  match flow !! native with
  | Some v =>
      if jsAdd v fee =? 0 then
        if decide (size flow = 1%nat) then <[native := 0]> flow
        else delete native flow
      else flow
  | None => flow
  end.

(** Lines 159-189, once the loops are done. *)
Definition enrich (app : AppRepository) (details : TxDetails)
    (id : string) (fee : Z) (flow : gmap string Z)
  : Async TxDetailsExtended :=
  let plain := {| x_height := height details; x_hex := hex details; txID := id;
                  txFlow := flow; feeAmount := fee; blockHeader := None |} in
  let corrected network header :=
    {| x_height := height details; x_hex := hex details; txID := id;
       txFlow := selfTransferCorrection (networks_assetHash network) fee flow;
       feeAmount := fee; blockHeader := header |} in
  match height details with
  | None => ret plain
  | Some h =>
      if h =? -1 then ret plain
      else
        let* network := await (getNetwork app) in
        match network with
        | None => throw NetworkNotFound
        | Some network =>
            let* cached := getBlockHeader network h in
            match cached with
            | Some bh => ret (corrected network (Some bh))
            | None =>
                let* chainSource := acquireChainSource app network in
                match chainSource with
                | None => ret plain
                | Some chainSource =>
                    let* fetched := fetchBlockHeader chainSource h in
                    match fetched with
                    | Some bh => setBlockHeader network bh
                    | None => ret tt
                    end >>
                    close chainSource >>
                    ret (corrected network fetched)
                end
            end
        end
  end.

(** The function returned by [computeTxDetailsExtended(appRepository,
    walletRepository, blockHeadersRepository)]. [!details.hex] holds of a
    missing [hex] and of the empty string. *)
Definition computeTxDetailsExtended (app : AppRepository) (wallet : WalletRepository)
    (details : TxDetails) : Async TxDetailsExtended :=
  match hex details with
  | None => throw TxHexNotFound
  | Some "" => throw TxHexNotFound
  | Some h =>
      let* transaction := await (Transaction_fromHex h) in
      let* st := passes wallet transaction in
      enrich app details (Transaction_getId transaction) st.1 st.2
  end.

End Flow.

(** ** reverseHex (line 59) *)

(** The value of a hexadecimal digit, in either case. *)
Definition hexValue (c : ascii) : option N :=
  let n := N_of_ascii c in
  if ((48 <=? n) && (n <=? 57))%N then Some (n - 48)%N
  else if ((97 <=? n) && (n <=? 102))%N then Some (n - 87)%N
  else if ((65 <=? n) && (n <=? 70))%N then Some (n - 55)%N
  else None.

(** [Buffer.from(s, 'hex')]: one byte for each pair of hexadecimal digits,
    up to the first pair that is not one (what Node does with the rest of a
    malformed string). *)
Fixpoint Buffer_fromHex (s : string) : bytes :=
  match s with
  | String a (String b r) =>
      match hexValue a, hexValue b with
      | Some x, Some y =>
          match Byte.of_N (16 * x + y) with
          | Some byte => byte :: Buffer_fromHex r
          | None => []
          end
      | _, _ => []
      end
  | _ => []
  end.

Definition reverseHex (hex : string) : string :=
  toHex (rev (Buffer_fromHex hex)).

(** ** makeURLwithBlinders (lines 61-88) *)

(** A number in a template literal: the decimal numeral (the form of every
    integer below 1e21). *)
Definition numberToString (z : Z) : string :=
  NilZero.string_of_int (Z.to_int z).

(** ['web explorer url not found'], or what a collaborator rejected with. *)
Inductive UrlError :=
| WebExplorerURLNotFound
| Rejected (reason : string).

(** The string pushed for an output (lines 80-83). *)
Definition blinderOf (bd : UnblindingData) : string :=
  (numberToString (ud_value bd) ++ "," ++ ud_asset bd ++ ","
   ++ reverseHex (ud_valueBlindingFactor bd) ++ ","
   ++ reverseHex (ud_assetBlindingFactor bd))%string.

(** The loop of lines 73-84 from index [i] on, on the array [blinders]. *)
Fixpoint pushBlinders (wallet : WalletRepository) (txID : string) (i : nat)
    (outs : list Output) (blinders : list string) : string + list string :=
  match outs with
  | [] => inr blinders
  | output :: rest =>
      if decide (List.length (out_script output) = 0%nat) then
        pushBlinders wallet txID (S i) rest blinders
      else
        match getOutputBlindingData wallet txID i with
        | inl reason => inl reason
        | inr None => pushBlinders wallet txID (S i) rest blinders
        | inr (Some data) =>
            match uo_blindingData data with
            | None => pushBlinders wallet txID (S i) rest blinders
            | Some bd => pushBlinders wallet txID (S i) rest (blinders ++ [blinderOf bd])
            end
        end
  end.

(** [getWebExplorerURL] is the answer of [appRepository.getWebExplorerURL()];
    [!webExplorerURL] holds of a missing URL and of the empty string. *)
Definition makeURLwithBlinders `{LiquidJS} (transaction : Transaction)
    (getWebExplorerURL : string + option string) (wallet : WalletRepository)
  : UrlError + string :=
  match getWebExplorerURL with
  | inl reason => inl (Rejected reason)
  | inr None => inl WebExplorerURLNotFound
  | inr (Some "") => inl WebExplorerURLNotFound
  | inr (Some webExplorerURL) =>
      let txID := Transaction_getId transaction in
      match pushBlinders wallet txID 0 (tx_outs transaction) [] with
      | inl reason => inl (Rejected reason)
      | inr blinders =>
          inr (webExplorerURL ++ "/tx/" ++ txID ++ "#blinded="
               ++ String.concat "," blinders)%string
      end
  end.

(** ** lockTransactionInputs (lines 90-101) *)

(** The outpoint built for an input (lines 96-99). *)
Definition inputOutpoint (input : Input) : string * nat :=
  (toHex (rev (in_hash input)), in_index input).

(** [lockOutpoints] is [walletRepository.lockOutpoints]. *)
Definition lockTransactionInputs `{LiquidJS}
    (lockOutpoints : list (string * nat) → string + unit) (txHex : string)
  : Async unit :=
  let* transaction := await (Transaction_fromHex txHex) in
  await (lockOutpoints (map inputOutpoint (tx_ins transaction))).

(** ** Reading the journal *)

Definition isFetched (e : Event) : bool :=
  match e with Fetched _ => true | _ => false end.

Definition isAcquired (e : Event) : bool :=
  match e with Acquired => true | _ => false end.

Definition isClosed (e : Event) : bool :=
  match e with Closed => true | _ => false end.

Definition fetches (j : list Event) : nat := List.length (List.filter isFetched j).

Definition acquisitions (j : list Event) : nat := List.length (List.filter isAcquired j).

Definition releases (j : list Event) : nat := List.length (List.filter isClosed j).

(** ** Vocabulary of the statements *)

(** A computation is quiet when it leaves the world as it found it and can
    only fail with what a collaborator rejected with. *)
Definition quiet {A} (m : Async A) : Prop :=
  ∀ w, (m w).2 = w ∧ ∀ e, (m w).1 = Thrown e → ∃ reason, e = Foreign reason.

(** The header stage is passed: the header is cached, or a chain source is
    handed out whose fetch and close resolve. *)
Definition headerStagePasses (app : AppRepository) (network : NetworkString) (h : Z)
    (w : World) : Prop :=
  is_Some (headers w !! (network, h)) ∨
  ∃ cs fetched,
    getChainSource app network = inr (Some cs) ∧
    cs_fetchBlockHeader cs h = inr fetched ∧
    cs_close cs = inr tt.





(** An amount moved on an asset. *)
Definition applyEntry (m : gmap string Z) (e : string * Z) : gmap string Z :=
  credit e.1 e.2 m.

(** The sum of the amounts a list of entries moves on an asset, and whether
    it moves any. *)
Definition total (a : string) (es : list (string * Z)) : Z :=
  foldr (λ e acc, if decide (e.1 = a) then e.2 + acc else acc) 0 es.

(** The sum of the absolute amounts a list of entries moves on an asset:
    while it stays within [2 ^ 53] every running sum is an exact double. *)
Definition volume (a : string) (es : list (string * Z)) : Z :=
  foldr (λ e acc, if decide (e.1 = a) then Z.abs e.2 + acc else acc) 0 es.

Definition mentions (a : string) (es : list (string * Z)) : bool :=
  existsb (λ e, bool_decide (e.1 = a)) es.

(** The secret of an unblinded output, as an entry. *)
Definition entryOf (utxo : UnblindedOutput) : option (string * Z) :=
  match uo_blindingData utxo with
  | Some bd => Some (ud_asset bd, ud_value bd)
  | None => None
  end.

(** The secret stored for an outpoint, if the lookup resolves to one. *)
Definition storedSecret (wallet : WalletRepository) (id : string) (vout : nat)
  : option UnblindingData :=
  match getOutputBlindingData wallet id vout with
  | inr (Some data) => uo_blindingData data
  | _ => None
  end.

Section Entries.
Context `{LiquidJS}.

(** What an output adds to the flow: the secret of a confidential output
    when stored, the explicit amount of any other output that is neither
    the fee nor a burn. *)
Definition creditedByOutput (wallet : WalletRepository) (id : string) (i : nat)
    (output : Output) : list (string * Z) :=
  let elementsValue := ElementsValue_fromBytes (out_value output) in
  if decide (List.length (out_script output) = 0%nat) then []
  else if isConfidential elementsValue then
    match storedSecret wallet id i with
    | Some bd => [(ud_asset bd, ud_value bd)]
    | None => []
    end
  else if includesOpReturn (out_script output) then []
  else [(AssetHash_fromBytes_hex (out_asset output), number elementsValue)].

(** The same for the outputs from index [i] on. *)
Fixpoint creditedBy (wallet : WalletRepository) (id : string) (i : nat)
    (outs : list Output) : list (string * Z) :=
  match outs with
  | [] => []
  | output :: rest => creditedByOutput wallet id i output ++ creditedBy wallet id (S i) rest
  end.

(** What an input takes from the flow: the amount of the output it spends,
    when the wallet knows that output and, if it is confidential, its
    secret. *)
Definition debitedByInput (wallet : WalletRepository) (input : Input)
  : list (string * Z) :=
  match getWitnessUtxo wallet (inputOutpoint input).1 (inputOutpoint input).2 with
  | inr (Some output) =>
      let elementsValue := ElementsValue_fromBytes (out_value output) in
      if isConfidential elementsValue then
        match storedSecret wallet (inputOutpoint input).1 (inputOutpoint input).2 with
        | Some bd => [(ud_asset bd, ud_value bd)]
        | None => []
        end
      else [(AssetHash_fromBytes_hex (out_asset output), number elementsValue)]
  | _ => []
  end.

Definition debitedBy (wallet : WalletRepository) (ins : list Input) : list (string * Z) :=
  flat_map (debitedByInput wallet) ins.

(** An entry with its amount negated. *)
Definition negated (e : string * Z) : string * Z := (e.1, - e.2).


(** The amounts of the fee outputs, in order. *)
Definition feeValues (outs : list Output) : list Z :=
  map (λ output, number (ElementsValue_fromBytes (out_value output)))
      (List.filter (λ output, bool_decide (List.length (out_script output) = 0%nat)) outs).

(** The secrets [makeURLwithBlinders] lists: those stored for the outputs
    with a script, from index [i] on. *)
Fixpoint listedSecrets (wallet : WalletRepository) (id : string) (i : nat)
    (outs : list Output) : list UnblindingData :=
  match outs with
  | [] => []
  | output :: rest =>
      (if decide (List.length (out_script output) = 0%nat) then []
       else match storedSecret wallet id i with
            | Some bd => [bd]
            | None => []
            end)
      ++ listedSecrets wallet id (S i) rest
  end.

End Entries.

(** A string of lower-case hexadecimal digits, an even number of them. *)
Definition isLowerHexDigit (c : ascii) : bool :=
  let n := N_of_ascii c in
  (((48 <=? n) && (n <=? 57)) || ((97 <=? n) && (n <=? 102)))%N.

Fixpoint isLowerHex (s : string) : bool :=
  match s with
  | EmptyString => true
  | String a (String b r) => isLowerHexDigit a && isLowerHexDigit b && isLowerHex r
  | String _ EmptyString => false
  end.

(** ** A small stand-in for liquidjs-lib, to run the function

    Values are a prefix byte ([0x01] explicit, [0x08] and [0x09] commitments)
    followed by the amount in big-endian; an asset is named by the hex of its
    bytes; every script byte is an opcode; three hex strings parse. *)

Module Fixture.

Definition bigEndian (b : bytes) : Z :=
  foldl (λ acc x, acc * 256 + Z.of_N (Byte.to_N x)) 0 b.

Definition decodeValue (b : bytes) : ElementsValue :=
  match b with
  | [] => {| isConfidential := false; number := 0 |}
  | p :: r =>
      {| isConfidential := (Byte.to_N p =? 8)%N || (Byte.to_N p =? 9)%N;
         number := bigEndian r |}
  end.

Definition decompile (s : bytes) : option (list Chunk) :=
  Some (map (λ x, Opcode (Z.of_N (Byte.to_N x))) s).

Definition native : bytes := [Byte.x6f].
Definition other : bytes := [Byte.xaa].
Definition p2wpkh : bytes := [Byte.x00; Byte.x14].
Definition burnScript : bytes := [Byte.x6a].
Definition explicit (hi lo : Byte.byte) : bytes := [Byte.x01; hi; lo].
Definition commitment : bytes := [Byte.x09; Byte.xc0].

Definition feeOutput : Output :=
  {| out_script := []; out_value := explicit Byte.x01 Byte.xf4; out_asset := native |}.

Definition spent : Input := {| in_hash := [Byte.xcd; Byte.xab]; in_index := 0 |}.

(** Change of 1000 in the native asset, fee 500, one input. *)
Definition selfTransfer : Transaction :=
  {| tx_outs := [ {| out_script := p2wpkh; out_value := explicit Byte.x03 Byte.xe8;
                     out_asset := native |}; feeOutput ];
     tx_ins := [spent] |}.

(** A confidential output besides the native change and the fee. *)
Definition receiveOther : Transaction :=
  {| tx_outs := [ {| out_script := p2wpkh; out_value := commitment; out_asset := other |};
                  {| out_script := p2wpkh; out_value := explicit Byte.x03 Byte.xe8;
                     out_asset := native |}; feeOutput ];
     tx_ins := [spent] |}.

(** A confidential output on an OP_RETURN script, and the fee. *)
Definition confidentialBurn : Transaction :=
  {| tx_outs := [ {| out_script := burnScript; out_value := commitment; out_asset := other |};
                  feeOutput ];
     tx_ins := [] |}.

Definition parse (s : string) : string + Transaction :=
  if String.eqb s "01" then inr selfTransfer
  else if String.eqb s "02" then inr receiveOther
  else if String.eqb s "03" then inr confidentialBurn
  else inl "invalid transaction hex".

#[export] Instance lib : LiquidJS := {|
  Transaction_fromHex := parse;
  Transaction_getId := λ _, "feed";
  ElementsValue_fromBytes := decodeValue;
  AssetHash_fromBytes_hex := toHex;
  script_decompile := decompile;
  OP_RETURN := 106;
  networks_assetHash := λ n,
    match n with liquid => "6f" | testnet => "14" | regtest => "5a" end
|}.

(** The wallet knows the secret of output 0 of transaction [feed] (7 of
    asset [aa]) and the explicit output [abcd:0] the fixtures spend (1500 of
    the native asset). *)
Definition wallet : WalletRepository :=
  {| getOutputBlindingData := λ id vout,
       if String.eqb id "feed" && Nat.eqb vout 0 then
         inr (Some {| uo_txID := id; uo_vout := vout;
                      uo_blindingData :=
                        Some {| ud_value := 7; ud_asset := "aa";
                                ud_assetBlindingFactor := "00";
                                ud_valueBlindingFactor := "00" |} |})
       else inr None;
     getWitnessUtxo := λ id vout,
       if String.eqb id "abcd" && Nat.eqb vout 0 then
         inr (Some {| out_script := p2wpkh; out_value := explicit Byte.x05 Byte.xdc;
                      out_asset := native |})
       else inr None |}.

(** A wallet repository that has nothing stored. *)
Definition blindWallet : WalletRepository :=
  {| getOutputBlindingData := λ _ _, inr None; getWitnessUtxo := λ _ _, inr None |}.


(** An explicit amount of 1000 on an OP_RETURN script. *)
Definition explicitBurn : Output :=
  {| out_script := burnScript; out_value := explicit Byte.x03 Byte.xe8; out_asset := other |}.

Definition header (h : Z) : BlockHeader := {| bh_height := h; bh_rest := "header" |}.

Definition liveSource : ChainSource :=
  {| cs_fetchBlockHeader := λ h, inr (Some (header h)); cs_close := inr tt |}.

Definition brokenSource : ChainSource :=
  {| cs_fetchBlockHeader := λ _, inl "connection reset"; cs_close := inr tt |}.

Definition appWith (network : option NetworkString) (source : option ChainSource)
  : AppRepository :=
  {| getNetwork := inr network; getChainSource := λ _, inr source |}.

Definition fresh : World := {| headers := ∅; journal := [] |}.

Definition record (h : option Z) (hx : string) : TxDetails :=
  {| height := h; hex := Some hx |}.

(** The wallet of the fixtures with one more secret, for a transaction the
    fixtures do not touch. *)
Definition widerWallet : WalletRepository :=
  {| getOutputBlindingData := λ id vout,
       if String.eqb id "beef" then
         inr (Some {| uo_txID := id; uo_vout := vout;
                      uo_blindingData :=
                        Some {| ud_value := 3; ud_asset := "bb";
                                ud_assetBlindingFactor := "01";
                                ud_valueBlindingFactor := "02" |} |})
       else getOutputBlindingData wallet id vout;
     getWitnessUtxo := λ id vout,
       if String.eqb id "beef" then inr (Some feeOutput)
       else getWitnessUtxo wallet id vout |}.

(** A wallet repository whose storage rejects every lookup. *)
Definition offlineWallet : WalletRepository :=
  {| getOutputBlindingData := λ _ _, inl "storage offline";
     getWitnessUtxo := λ _ _, inl "storage offline" |}.

(** A chain source that has no header yet. *)
Definition earlySource : ChainSource :=
  {| cs_fetchBlockHeader := λ _, inr None; cs_close := inr tt |}.

Definition holdings : list UnblindedOutput :=
  [ Build_UnblindedOutput "feed" 0 (Some (Build_UnblindingData 7 "aa" "00" "00"));
    Build_UnblindedOutput "feed" 1 None;
    Build_UnblindedOutput "abcd" 0 (Some (Build_UnblindingData 5 "aa" "00" "00")) ].

(** Holdings of one asset whose values sum past 2^53: five of 21e14 (the
    largest amount there is) and two of 1. *)
Definition holding (v : Z) : UnblindedOutput :=
  Build_UnblindedOutput "feed" 0 (Some (Build_UnblindingData v "aa" "00" "00")).

Definition bigs : list UnblindedOutput :=
  [ holding 2100000000000000; holding 2100000000000000; holding 2100000000000000;
    holding 2100000000000000; holding 2100000000000000 ].

Definition ones : list UnblindedOutput := [ holding 1; holding 1 ].

End Fixture.

(** * Properties *)

Lemma orZero_default (x : option Z) : orZero x = default 0 x.
Proof.
  destruct x as [v|]; simpl; [|reflexivity].
  destruct (Z.eqb_spec v 0); congruence.
Qed.

(** ** Double arithmetic on integers *)

Lemma roundDouble_exact z : Z.abs z ≤ 2 ^ 53 → roundDouble z = z.
Proof.
  intros Hz. unfold roundDouble.
  destruct (Z.ltb_spec (Z.log2 (Z.abs z)) 53) as [|Hn]; [reflexivity|].
  assert (Habs : Z.abs z = 2 ^ 53).
  { assert (2 ^ 53 ≤ Z.abs z); [|lia].
    destruct (Z.le_gt_cases (2 ^ 53) (Z.abs z)); [assumption|].
    assert (Z.log2 (Z.abs z) < 53); [|lia].
    destruct (Z.eq_dec (Z.abs z) 0) as [->|]; [simpl; lia|].
    apply Z.log2_lt_pow2; lia. }
  destruct (Z.abs_eq_or_opp z) as [He|He]; rewrite He in Habs.
  - subst z. reflexivity.
  - replace z with (- 2 ^ 53) by lia. reflexivity.
Qed.

Lemma roundDouble_nonneg z : 0 ≤ z → 0 ≤ roundDouble z.
Proof.
  intros Hz. unfold roundDouble.
  destruct (Z.log2 (Z.abs z) <? 53); [assumption|].
  set (s := Z.log2 (Z.abs z) - 52).
  assert (0 ≤ 2 ^ s) by (apply Z.pow_nonneg; lia).
  assert (0 ≤ Z.abs z / 2 ^ s) by (apply Z_div_nonneg_nonneg; lia).
  destruct (_ || _); apply Z.mul_nonneg_nonneg; try lia; apply Z.mul_nonneg_nonneg; lia.
Qed.

(** A rounded sum is 0 exactly when the sum is. *)
Lemma roundDouble_zero z : roundDouble z = 0 ↔ z = 0.
Proof.
  split; [|intros ->; reflexivity].
  unfold roundDouble.
  destruct (Z.ltb_spec (Z.log2 (Z.abs z)) 53) as [|Hn]; [auto|].
  set (s := Z.log2 (Z.abs z) - 52).
  assert (Hpos : 0 < Z.abs z)
    by (destruct (Z.eq_dec (Z.abs z) 0) as [Hz|]; [rewrite Hz in Hn; simpl in Hn; lia|lia]).
  assert (Hs : 0 < 2 ^ s) by (apply Z.pow_pos_nonneg; lia).
  assert (Hq : 1 ≤ Z.abs z / 2 ^ s).
  { apply Z.div_le_lower_bound; [lia|]. rewrite Z.mul_1_r.
    transitivity (2 ^ Z.log2 (Z.abs z)); [apply Z.pow_le_mono_r; lia|].
    apply Z.log2_spec; lia. }
  intros Hr. apply Z.mul_eq_0 in Hr as [Hr|Hr]; [destruct z; simpl in *; lia|].
  destruct (_ || _); nia.
Qed.

Lemma jsAdd_zero a b : jsAdd a b = 0 ↔ a + b = 0.
Proof. apply roundDouble_zero. Qed.

Lemma jsSub_jsAdd a b : jsSub a b = jsAdd a (- b).
Proof. unfold jsSub, jsAdd. f_equal. Qed.

(** ** Entries and their sums *)

Lemma lookup_credit (k j : string) (v : Z) (m : gmap string Z) :
  credit k v m !! j
  = if decide (k = j) then Some (jsAdd (default 0 (m !! k)) v) else m !! j.
Proof.
  unfold credit. rewrite lookup_insert, orZero_default. reflexivity.
Qed.

Lemma total_unmentioned a (es : list (string * Z)) :
  mentions a es = false → total a es = 0.
Proof.
  induction es as [|e es IH]; simpl; [reflexivity|]. intros Hm.
  apply orb_false_elim in Hm as [He Hes].
  apply bool_decide_eq_false in He. rewrite decide_False by assumption. now apply IH.
Qed.

Lemma volume_nonneg a (es : list (string * Z)) : 0 ≤ volume a es.
Proof. induction es as [|e es IH]; simpl; [lia|]. case_decide; lia. Qed.

Lemma total_app a (es1 es2 : list (string * Z)) :
  total a (es1 ++ es2) = total a es1 + total a es2.
Proof.
  induction es1 as [|e es1 IH]; simpl; [reflexivity|].
  rewrite IH. case_decide; lia.
Qed.

Lemma volume_app a (es1 es2 : list (string * Z)) :
  volume a (es1 ++ es2) = volume a es1 + volume a es2.
Proof.
  induction es1 as [|e es1 IH]; simpl; [reflexivity|].
  rewrite IH. case_decide; lia.
Qed.

Lemma mentions_app a (es1 es2 : list (string * Z)) :
  mentions a (es1 ++ es2) = mentions a es1 || mentions a es2.
Proof. apply existsb_app. Qed.

Lemma total_perm a (es1 es2 : list (string * Z)) :
  Permutation es1 es2 → total a es1 = total a es2.
Proof.
  induction 1 as [|e es1 es2 _ IH|e1 e2 es|es1 es2 es3 _ IH1 _ IH2]; simpl;
    [reflexivity|rewrite IH; reflexivity|repeat case_decide; lia|congruence].
Qed.

Lemma volume_perm a (es1 es2 : list (string * Z)) :
  Permutation es1 es2 → volume a es1 = volume a es2.
Proof.
  induction 1 as [|e es1 es2 _ IH|e1 e2 es|es1 es2 es3 _ IH1 _ IH2]; simpl;
    [reflexivity|rewrite IH; reflexivity|repeat case_decide; lia|congruence].
Qed.

Lemma mentions_perm a (es1 es2 : list (string * Z)) :
  Permutation es1 es2 → mentions a es1 = mentions a es2.
Proof.
  induction 1 as [|e es1 es2 _ IH|e1 e2 es|es1 es2 es3 _ IH1 _ IH2]; simpl;
    [reflexivity|rewrite IH; reflexivity| |congruence].
  destruct (bool_decide _), (bool_decide _); reflexivity.
Qed.

(** An asset has an entry after the entries are applied exactly when it had
    one before or an entry moves it, whatever the amounts. *)
Lemma applyEntries_presence (es : list (string * Z)) :
  ∀ (m : gmap string Z) (a : string),
    foldl applyEntry m es !! a = None ↔ m !! a = None ∧ mentions a es = false.
Proof.
  induction es as [|[k v] es IH]; intros m a; simpl; [tauto|].
  rewrite IH. unfold applyEntry. simpl. rewrite lookup_credit.
  destruct (decide (k = a)) as [->|Hne].
  - rewrite bool_decide_eq_true_2 by reflexivity. simpl. split; intros []; discriminate.
  - rewrite bool_decide_eq_false_2 by assumption. reflexivity.
Qed.

(** While the absolute amounts moved on an asset stay within [2 ^ 53], its
    entry is the exact sum. *)
Lemma applyEntries_lookup (es : list (string * Z)) :
  ∀ (m : gmap string Z) (a : string),
    Z.abs (default 0 (m !! a)) + volume a es ≤ 2 ^ 53 →
    foldl applyEntry m es !! a
    = if mentions a es then Some (default 0 (m !! a) + total a es) else m !! a.
Proof.
  induction es as [|[k v] es IH]; intros m a Hvol; simpl; [reflexivity|].
  simpl in Hvol. pose proof (volume_nonneg a es) as Hnn.
  unfold applyEntry at 2. simpl.
  destruct (decide (k = a)) as [->|Hne].
  - rewrite bool_decide_eq_true_2 by reflexivity. simpl.
    assert (Hexact : jsAdd (default 0 (m !! a)) v = default 0 (m !! a) + v)
      by (apply roundDouble_exact; lia).
    rewrite IH; rewrite lookup_credit, decide_True by reflexivity;
      rewrite Hexact; simpl; [|lia].
    destruct (mentions a es) eqn:Hm; f_equal; [lia|].
    rewrite (total_unmentioned _ _ Hm). lia.
  - rewrite bool_decide_eq_false_2 by assumption. simpl.
    rewrite IH; rewrite lookup_credit, decide_False by assumption; [reflexivity|lia].
Qed.

(** Non-negative amounts never give a negative entry, rounded or not. *)
Lemma applyEntries_nonneg (es : list (string * Z)) :
  ∀ m : gmap string Z,
    (∀ k x, m !! k = Some x → 0 ≤ x) →
    (∀ e, e ∈ es → 0 ≤ e.2) →
    ∀ k x, foldl applyEntry m es !! k = Some x → 0 ≤ x.
Proof.
  induction es as [|[a v] es IH]; intros m Hm Hes; simpl; [exact Hm|].
  apply IH.
  - intros k x. unfold applyEntry. simpl. rewrite lookup_credit.
    case_decide; [|apply Hm]. intros [= <-]. apply roundDouble_nonneg.
    assert (0 ≤ v) by (apply (Hes (a, v)); left).
    assert (0 ≤ default 0 (m !! a))
      by (destruct (m !! a) as [d|] eqn:Hd; simpl; [now apply (Hm a)|lia]).
    lia.
  - intros e He. apply Hes. now right.
Qed.

Lemma computeBalances_entries (utxos : list UnblindedOutput) :
  ∀ m, foldl computeBalances_body m utxos = foldl applyEntry m (omap entryOf utxos).
Proof.
  induction utxos as [|utxo utxos IH]; intros m; simpl; [reflexivity|].
  rewrite IH. unfold computeBalances_body, entryOf.
  destruct (uo_blindingData utxo); reflexivity.
Qed.

Lemma computeBalances_lookup_entries (utxos : list UnblindedOutput) (a : string) :
  volume a (omap entryOf utxos) ≤ 2 ^ 53 →
  computeBalances utxos !! a
  = if mentions a (omap entryOf utxos) then Some (total a (omap entryOf utxos)) else None.
Proof.
  intros Hvol. unfold computeBalances.
  rewrite computeBalances_entries, applyEntries_lookup; rewrite lookup_empty; simpl;
    [reflexivity|lia].
Qed.

Lemma computeBalances_presence (utxos : list UnblindedOutput) (a : string) :
  computeBalances utxos !! a = None ↔ mentions a (omap entryOf utxos) = false.
Proof.
  unfold computeBalances. rewrite computeBalances_entries, applyEntries_presence.
  rewrite lookup_empty. tauto.
Qed.

(** C9 (amended): the balances of no outputs are the empty mapping; the
    balances of a list of unblinded outputs do not depend on the order of
    the list as long as, for every asset, the absolute values of its amounts
    sum to at most 2^53, the range in which every running sum is an exact
    double. *)
Theorem computeBalances_order_invariant :
  computeBalances [] = ∅ ∧
  ∀ utxos utxos' : list UnblindedOutput,
    Permutation utxos utxos' →
    (∀ a, volume a (omap entryOf utxos) ≤ 2 ^ 53) →
    computeBalances utxos = computeBalances utxos'.
Proof.
  split; [reflexivity|].
  intros utxos utxos' Hp Hvol. apply map_eq; intros a.
  assert (Hpe : Permutation (omap entryOf utxos) (omap entryOf utxos'))
    by now apply omap_Permutation.
  rewrite !computeBalances_lookup_entries;
    [|rewrite <- (volume_perm a _ _ Hpe); apply Hvol|apply Hvol].
  now rewrite (mentions_perm a _ _ Hpe), (total_perm a _ _ Hpe).
Qed.

(** ** Computations that only read *)

Lemma quiet_ret {A} (a : A) : quiet (ret a).
Proof. intros w; split; [reflexivity|]. simpl; intros e He; discriminate. Qed.

Lemma quiet_await {A} (r : string + A) : quiet (await r).
Proof.
  intros w; destruct r as [reason|a]; simpl; split; try reflexivity.
  - intros e [= <-]. now exists reason.
  - intros e He; discriminate.
Qed.

Lemma quiet_bind {A B} (m : Async A) (k : A → Async B) :
  quiet m → (∀ a, quiet (k a)) → quiet (bind m k).
Proof.
  intros Hm Hk w. unfold bind.
  destruct (Hm w) as [Hw He]. destruct (m w) as [[a|e] w1]; simpl in *; subst w1.
  - apply Hk.
  - split; [reflexivity|]. intros e' [= <-]. now apply He.
Qed.

Lemma quiet_forIndex {A V} (body : nat → A → V → Async V) (l : list A) :
  (∀ i x s, quiet (body i x s)) → ∀ i s, quiet (forIndex body i l s).
Proof.
  intros Hb. induction l as [|x l IH]; intros i s; simpl.
  - apply quiet_ret.
  - apply quiet_bind; [apply Hb|]. intros s'; apply IH.
Qed.

Lemma quiet_getNumber (v : ElementsValue) : quiet (getNumber v).
Proof.
  intros w. unfold getNumber. destruct (isConfidential v); simpl; split; try reflexivity.
  - intros e [= <-]. eauto.
  - intros e He; discriminate.
Qed.

Ltac quiet_step :=
  first [ apply quiet_ret | apply quiet_await | apply quiet_getNumber
        | apply quiet_bind; [|intros ?]
        | match goal with |- quiet (match ?x with _ => _ end) => destruct x end
        | match goal with |- quiet (if ?b then _ else _) => destruct b end ].

Section FlowFacts.
Context `{LiquidJS}.

Lemma quiet_outputBody wallet id i output st : quiet (outputBody wallet id i output st).
Proof. unfold outputBody. repeat quiet_step. Qed.

Lemma quiet_inputBody wallet i input flow : quiet (inputBody wallet i input flow).
Proof. unfold inputBody. repeat quiet_step. Qed.

Lemma quiet_passes wallet transaction : quiet (passes wallet transaction).
Proof.
  unfold passes.
  apply quiet_bind; [apply quiet_forIndex; intros; apply quiet_outputBody|]. intros st.
  apply quiet_bind; [apply quiet_forIndex; intros; apply quiet_inputBody|]. intros flow.
  apply quiet_ret.
Qed.

(** Unfolding of the function on a record whose [hex] is there and parses. *)
Lemma computeTxDetailsExtended_parsed app wallet details hx transaction w :
  hex details = Some hx → hx ≠ "" → Transaction_fromHex hx = inr transaction →
  computeTxDetailsExtended app wallet details w
  = (let* st := passes wallet transaction in
     enrich app details (Transaction_getId transaction) st.1 st.2) w.
Proof.
  intros Hhex Hne Hparse. unfold computeTxDetailsExtended. rewrite Hhex.
  destruct hx as [|c hx]; [congruence|].
  unfold bind at 1. rewrite Hparse. reflexivity.
Qed.

Lemma computeTxDetailsExtended_after_passes app wallet details hx transaction w st :
  hex details = Some hx → hx ≠ "" → Transaction_fromHex hx = inr transaction →
  (passes wallet transaction w).1 = Returned st →
  computeTxDetailsExtended app wallet details w
  = enrich app details (Transaction_getId transaction) st.1 st.2 w.
Proof.
  intros Hhex Hne Hparse Hp.
  rewrite (computeTxDetailsExtended_parsed _ _ _ _ _ _ Hhex Hne Hparse).
  unfold bind. destruct (quiet_passes wallet transaction w) as [Hw _].
  destruct (passes wallet transaction w) as [o w1]; simpl in *; subst. reflexivity.
Qed.


Lemma enrich_unconfirmed app details id fee flow w :
  height details = None ∨ height details = Some (-1) →
  enrich app details id fee flow w
  = (Returned {| x_height := height details; x_hex := hex details; txID := id;
                 txFlow := flow; feeAmount := fee; blockHeader := None |}, w).
Proof. intros [Hh|Hh]; unfold enrich; rewrite Hh; reflexivity. Qed.

Lemma enrich_confirmed app details id fee flow h w :
  height details = Some h → h ≠ -1 →
  enrich app details id fee flow w
  = (let* network := await (getNetwork app) in
     match network with
     | None => throw NetworkNotFound
     | Some network =>
         let* cached := getBlockHeader network h in
         match cached with
         | Some bh =>
             ret {| x_height := height details; x_hex := hex details; txID := id;
                    txFlow := selfTransferCorrection (networks_assetHash network) fee flow;
                    feeAmount := fee; blockHeader := Some bh |}
         | None =>
             let* chainSource := acquireChainSource app network in
             match chainSource with
             | None =>
                 ret {| x_height := height details; x_hex := hex details; txID := id;
                        txFlow := flow; feeAmount := fee; blockHeader := None |}
             | Some chainSource =>
                 let* fetched := fetchBlockHeader chainSource h in
                 match fetched with
                 | Some bh => setBlockHeader network bh
                 | None => ret tt
                 end >>
                 close chainSource >>
                 ret {| x_height := height details; x_hex := hex details; txID := id;
                        txFlow := selfTransferCorrection (networks_assetHash network) fee flow;
                        feeAmount := fee; blockHeader := fetched |}
             end
         end
     end) w.
Proof.
  intros Hh Hne. unfold enrich. rewrite Hh.
  destruct (Z.eqb_spec h (-1)); [contradiction|reflexivity].
Qed.

Lemma enrich_no_source app details id fee flow h network w :
  height details = Some h → h ≠ -1 →
  getNetwork app = inr (Some network) →
  headers w !! (network, h) = None →
  getChainSource app network = inr None →
  enrich app details id fee flow w
  = (Returned {| x_height := height details; x_hex := hex details; txID := id;
                 txFlow := flow; feeAmount := fee; blockHeader := None |}, w).
Proof.
  intros Hh Hconf Hnet Hmiss Hcs.
  rewrite (enrich_confirmed _ _ _ _ _ _ _ Hh Hconf).
  unfold bind at 1. rewrite Hnet. simpl.
  unfold bind at 1, getBlockHeader. rewrite Hmiss.
  unfold acquireChainSource, bind. rewrite Hcs. reflexivity.
Qed.

(** Past the header stage the record carries the corrected flow. *)
Lemma enrich_corrects app details id fee flow h network w :
  height details = Some h → h ≠ -1 →
  getNetwork app = inr (Some network) →
  headerStagePasses app network h w →
  ∃ r w', enrich app details id fee flow w = (Returned r, w')
          ∧ txFlow r = selfTransferCorrection (networks_assetHash network) fee flow
          ∧ feeAmount r = fee.
Proof.
  intros Hh Hne Hnet Hstage.
  rewrite (enrich_confirmed _ _ _ _ _ _ _ Hh Hne).
  unfold bind at 1. rewrite Hnet. simpl.
  unfold bind at 1, getBlockHeader.
  destruct Hstage as [[bh Hbh]|(cs & fetched & Hcs & Hfetch & Hclose)].
  - rewrite Hbh. simpl. eauto.
  - destruct (headers w !! (network, h)) as [bh|]; [simpl; eauto|].
    unfold acquireChainSource, fetchBlockHeader, close, bind, emit.
    rewrite Hcs. simpl. rewrite Hfetch. simpl.
    destruct fetched as [bh|]; simpl; rewrite Hclose; simpl; eauto.
Qed.

Lemma size_one_singleton (m : gmap string Z) k v :
  size m = 1%nat → m !! k = Some v → m = {[k := v]}.
Proof.
  intros Hsize Hk.
  assert (Hd : delete k m = ∅).
  { apply map_size_empty_inv. rewrite map_size_delete_Some by eauto.
    now rewrite Hsize. }
  rewrite <- (insert_delete_id m k v Hk), Hd. apply insert_empty.
Qed.

Lemma selfTransferCorrection_single native fee v flow :
  flow !! native = Some v → size flow = 1%nat → v + fee = 0 →
  selfTransferCorrection native fee flow = {[native := 0]}.
Proof.
  intros Hv Hsize Hsum. unfold selfTransferCorrection. rewrite Hv.
  apply jsAdd_zero in Hsum. rewrite Hsum. simpl.
  rewrite decide_True by assumption.
  rewrite (size_one_singleton _ _ _ Hsize Hv). apply insert_singleton_eq.
Qed.

Lemma selfTransferCorrection_several native fee v flow other :
  flow !! native = Some v → other ≠ native → is_Some (flow !! other) → v + fee = 0 →
  selfTransferCorrection native fee flow = delete native flow.
Proof.
  intros Hv Hne [x Hx] Hsum. unfold selfTransferCorrection. rewrite Hv.
  apply jsAdd_zero in Hsum. rewrite Hsum. simpl.
  rewrite decide_False; [reflexivity|].
  intros Hsize. rewrite (size_one_singleton _ _ _ Hsize Hv) in Hx.
  apply lookup_singleton_Some in Hx as [-> _]. congruence.
Qed.

(** The header stage only fails with the missing network or with what a
    collaborator rejected with. *)
Lemma enrich_exn app details id fee flow w e :
  (enrich app details id fee flow w).1 = Thrown e →
  e = NetworkNotFound ∨ ∃ reason, e = Foreign reason.
Proof.
  unfold enrich.
  destruct (height details) as [h|]; [|discriminate].
  destruct (h =? -1); [discriminate|].
  unfold bind at 1. destruct (getNetwork app) as [reason|[network|]]; simpl.
  - intros [= <-]; eauto.
  - unfold bind at 1, getBlockHeader.
    destruct (headers w !! (network, h)) as [bh|]; [discriminate|].
    unfold acquireChainSource, fetchBlockHeader, close, bind, emit.
    destruct (getChainSource app network) as [reason|[cs|]]; simpl.
    + intros [= <-]; eauto.
    + destruct (cs_fetchBlockHeader cs h) as [reason|[bh|]]; simpl;
        try (intros [= <-]; eauto);
        destruct (cs_close cs) as [reason|[]]; simpl;
        try discriminate; intros [= <-]; eauto.
    + discriminate.
  - intros [= <-]; eauto.
Qed.

Lemma computeTxDetailsExtended_unconfirmed_exn app wallet details w e :
  height details = None ∨ height details = Some (-1) →
  (computeTxDetailsExtended app wallet details w).1 = Thrown e →
  e = TxHexNotFound ∨ ∃ reason, e = Foreign reason.
Proof.
  intros Hh. unfold computeTxDetailsExtended.
  destruct (hex details) as [[|c hx]|]; try (intros [= <-]; eauto).
  unfold bind at 1. destruct (Transaction_fromHex _) as [reason|transaction]; simpl.
  { intros [= <-]; eauto. }
  unfold bind. destruct (quiet_passes wallet transaction w) as [Hw He].
  destruct (passes wallet transaction w) as [[st|e'] w1]; simpl in *.
  - rewrite enrich_unconfirmed by assumption. discriminate.
  - intros [= <-]. right. now apply He.
Qed.

Lemma computeTxDetailsExtended_present_exn app wallet details hx w e :
  hex details = Some hx → hx ≠ "" →
  (computeTxDetailsExtended app wallet details w).1 = Thrown e →
  e = NetworkNotFound ∨ ∃ reason, e = Foreign reason.
Proof.
  intros Hhex Hne. unfold computeTxDetailsExtended. rewrite Hhex.
  destruct hx as [|c hx]; [congruence|].
  unfold bind at 1. destruct (Transaction_fromHex _) as [reason|transaction]; simpl.
  { intros [= <-]; eauto. }
  unfold bind. destruct (quiet_passes wallet transaction w) as [Hw He].
  destruct (passes wallet transaction w) as [[st|e'] w1]; simpl in *.
  - apply enrich_exn.
  - intros [= <-]. right. now apply He.
Qed.

End FlowFacts.

(** ** Loops and absent lookups *)

Lemma forIndex_app {A V} (body : nat → A → V → Async V) (l1 l2 : list A) :
  ∀ i s w,
    forIndex body i (l1 ++ l2) s w
    = (let* s' := forIndex body i l1 s in forIndex body (i + List.length l1) l2 s') w.
Proof.
  induction l1 as [|x l1 IH]; intros i s w; simpl.
  - unfold bind, ret. now rewrite Nat.add_0_r.
  - unfold bind. destruct (body i x s w) as [[s'|e] w']; [|reflexivity].
    rewrite IH. unfold bind. now rewrite Nat.add_succ_r.
Qed.


Section Skips.
Context `{LiquidJS}.


Lemma inputBody_unknown wallet inIndex input flow w :
  getWitnessUtxo wallet (toHex (rev (in_hash input))) (in_index input) = inr None →
  inputBody wallet inIndex input flow w = (Returned flow, w).
Proof. intros Hw. unfold inputBody, bind. now rewrite Hw. Qed.



(** A fee output with a commitment for value makes the pass fail: the
    getter throws before anything else is looked at. *)
Lemma outputBody_fee_confidential wallet id outIndex output st w :
  out_script output = [] →
  isConfidential (ElementsValue_fromBytes (out_value output)) = true →
  outputBody wallet id outIndex output st w = (Thrown (Foreign "Invalid value prefix"), w).
Proof.
  intros Hscript Hconf. unfold outputBody, getNumber, bind.
  rewrite decide_True by now rewrite Hscript. now rewrite Hconf.
Qed.





End Skips.

Section HeaderCache.
Context `{LiquidJS}.

(** The call fails without touching the world, or reaches the stage after
    the passes in the world it started from. *)
Lemma computeTxDetailsExtended_cases app wallet details w :
  (∃ e, computeTxDetailsExtended app wallet details w = (Thrown e, w)) ∨
  ∃ id fee flow,
    computeTxDetailsExtended app wallet details w = enrich app details id fee flow w.
Proof.
  destruct (hex details) as [hx|] eqn:Hhex;
    [|left; unfold computeTxDetailsExtended; rewrite Hhex; eexists; reflexivity].
  destruct (decide (hx = "")) as [->|Hne];
    [left; unfold computeTxDetailsExtended; rewrite Hhex; eexists; reflexivity|].
  destruct (Transaction_fromHex hx) as [reason|transaction] eqn:Hparse.
  { left. unfold computeTxDetailsExtended. rewrite Hhex.
    destruct hx as [|c hx]; [congruence|].
    unfold bind. rewrite Hparse. eexists; reflexivity. }
  rewrite (computeTxDetailsExtended_parsed _ _ _ _ _ _ Hhex Hne Hparse).
  unfold bind. destruct (quiet_passes wallet transaction w) as [Hw _].
  destruct (passes wallet transaction w) as [[st|e] w1]; simpl in Hw; subst w1.
  - right. exists (Transaction_getId transaction), st.1, st.2. reflexivity.
  - left. exists e. reflexivity.
Qed.

Lemma enrich_hit app details id fee flow h network bh w :
  height details = Some h → h ≠ -1 →
  getNetwork app = inr (Some network) →
  headers w !! (network, h) = Some bh →
  enrich app details id fee flow w
  = (Returned {| x_height := height details; x_hex := hex details; txID := id;
                 txFlow := selfTransferCorrection (networks_assetHash network) fee flow;
                 feeAmount := fee; blockHeader := Some bh |}, w).
Proof.
  intros Hh Hconf Hnet Hlook.
  rewrite (enrich_confirmed _ _ _ _ _ _ _ Hh Hconf).
  unfold bind at 1. rewrite Hnet. simpl.
  unfold bind, getBlockHeader. now rewrite Hlook.
Qed.

Lemma fetches_snoc j e : fetches (j ++ [e])%list = (fetches j + fetches [e])%nat.
Proof. unfold fetches. now rewrite List.filter_app, length_app. Qed.

Lemma enrich_miss_persisted app details id fee flow h network w0 r1 w1 :
  height details = Some h → h ≠ -1 →
  getNetwork app = inr (Some network) →
  headers w0 !! (network, h) = None →
  enrich app details id fee flow w0 = (Returned r1, w1) →
  is_Some (headers w1 !! (network, h)) →
  blockHeader r1 = headers w1 !! (network, h)
  ∧ fetches (journal w1) = S (fetches (journal w0)).
Proof.
  intros Hh Hconf Hnet Hmiss Hrun [kept Hkept].
  rewrite (enrich_confirmed _ _ _ _ _ _ _ Hh Hconf) in Hrun.
  unfold bind at 1 in Hrun. rewrite Hnet in Hrun. simpl in Hrun.
  unfold bind at 1, getBlockHeader in Hrun. rewrite Hmiss in Hrun.
  unfold acquireChainSource, fetchBlockHeader, close, bind, emit in Hrun.
  destruct (getChainSource app network) as [reason|[cs|]]; simpl in Hrun.
  - discriminate.
  - destruct (cs_fetchBlockHeader cs h) as [reason|[bh|]]; simpl in Hrun;
      try discriminate;
      destruct (cs_close cs) as [reason|[]]; simpl in Hrun; try discriminate;
      injection Hrun as <- <-; simpl in *.
    + destruct (decide (bh_height bh = h)) as [Heq|Hother].
      * rewrite Heq in *. rewrite lookup_insert_eq. split; [reflexivity|].
        rewrite !fetches_snoc. simpl. unfold fetches at 2 3 4. simpl. lia.
      * rewrite lookup_insert_ne in Hkept by congruence. congruence.
    + congruence.
  - injection Hrun as <- <-. congruence.
Qed.

(** On a miss, when the fetch resolves (with a header or without) and the
    close resolves, the connection acquired is closed last. *)
Lemma enrich_closes_after_fetch app details id fee flow h network cs fetched w :
  height details = Some h → h ≠ -1 →
  getNetwork app = inr (Some network) →
  headers w !! (network, h) = None →
  getChainSource app network = inr (Some cs) →
  cs_fetchBlockHeader cs h = inr fetched →
  cs_close cs = inr tt →
  ∃ r w', enrich app details id fee flow w = (Returned r, w')
          ∧ journal w' = (journal w ++ [Acquired; Fetched h; Closed])%list
          ∧ blockHeader r = fetched.
Proof.
  intros Hh Hconf Hnet Hmiss Hcs Hfetch Hclose.
  rewrite (enrich_confirmed _ _ _ _ _ _ _ Hh Hconf).
  unfold bind at 1. rewrite Hnet. simpl.
  unfold bind at 1, getBlockHeader. rewrite Hmiss.
  unfold acquireChainSource, fetchBlockHeader, close, bind, emit.
  rewrite Hcs. simpl. rewrite Hfetch. simpl.
  destruct fetched as [bh|]; simpl; rewrite Hclose; simpl;
    eexists _, _; (split; [reflexivity|]); simpl;
    rewrite <- !app_assoc; split; reflexivity.
Qed.

(** What a returning call went through. *)
Lemma computeTxDetailsExtended_returned app wallet details w r w' :
  computeTxDetailsExtended app wallet details w = (Returned r, w') →
  ∃ hx transaction fee flow,
    hex details = Some hx ∧ hx ≠ "" ∧ Transaction_fromHex hx = inr transaction
    ∧ (passes wallet transaction w).1 = Returned (fee, flow)
    ∧ enrich app details (Transaction_getId transaction) fee flow w = (Returned r, w').
Proof.
  intros Hrun.
  destruct (hex details) as [hx|] eqn:Hhex;
    [|unfold computeTxDetailsExtended in Hrun; rewrite Hhex in Hrun; discriminate].
  destruct (decide (hx = "")) as [->|Hne];
    [unfold computeTxDetailsExtended in Hrun; rewrite Hhex in Hrun; discriminate|].
  destruct (Transaction_fromHex hx) as [reason|transaction] eqn:Hparse.
  { unfold computeTxDetailsExtended in Hrun. rewrite Hhex in Hrun.
    destruct hx as [|c hx]; [congruence|].
    unfold bind in Hrun. rewrite Hparse in Hrun. discriminate. }
  rewrite (computeTxDetailsExtended_parsed _ _ _ _ _ _ Hhex Hne Hparse) in Hrun.
  unfold bind in Hrun. destruct (quiet_passes wallet transaction w) as [Hw _].
  destruct (passes wallet transaction w) as [[[fee flow]|e] w1] eqn:Hpass;
    simpl in Hw; subst w1; [|discriminate].
  exists hx, transaction, fee, flow. repeat split; try assumption.
  now rewrite Hpass.
Qed.

(** What the stage after the passes returns, and what it leaves behind. *)
Lemma enrich_returned app details id fee flow w r w' :
  enrich app details id fee flow w = (Returned r, w') →
  x_height r = height details ∧ x_hex r = hex details ∧ txID r = id ∧ feeAmount r = fee
  ∧ (txFlow r = flow
     ∨ ∃ network, getNetwork app = inr (Some network)
                  ∧ txFlow r = selfTransferCorrection (networks_assetHash network) fee flow)
  ∧ (height details = None ∨ height details = Some (-1) → blockHeader r = None ∧ w' = w).
Proof.
  unfold enrich.
  destruct (height details) as [h|]; [|intros [= <- <-]; simpl; auto 10].
  destruct (Z.eqb_spec h (-1)) as [->|Hconf]; [intros [= <- <-]; simpl; auto 10|].
  assert (Hno : Some h = None ∨ Some h = Some (-1) → ∀ P : Prop, P)
    by (intros [?|?]; congruence).
  unfold bind at 1. destruct (getNetwork app) as [reason|[network|]]; simpl;
    [discriminate| |discriminate].
  unfold bind at 1, getBlockHeader.
  destruct (headers w !! (network, h)) as [bh|].
  { intros [= <- <-]. simpl. do 4 (split; [reflexivity|]). split; [eauto|].
    intros Hu. now apply Hno. }
  unfold acquireChainSource, fetchBlockHeader, close, bind, emit.
  destruct (getChainSource app network) as [reason|[cs|]]; simpl; [discriminate| |].
  - destruct (cs_fetchBlockHeader cs h) as [reason|[bh|]]; simpl; try discriminate;
      destruct (cs_close cs) as [reason|[]]; simpl; try discriminate;
      intros [= <- <-]; simpl; do 4 (split; [reflexivity|]); (split; [eauto|]);
      intros Hu; now apply Hno.
  - intros [= <- <-]. simpl. do 4 (split; [reflexivity|]). split; [eauto|].
    intros Hu. now apply Hno.
Qed.

(** What the stage after the passes writes to the journal. *)
Lemma enrich_journal app details id fee flow w o w' :
  enrich app details id fee flow w = (o, w') →
  ∃ suffix,
    journal w' = (journal w ++ suffix)%list
    ∧ (suffix = []
       ∨ (∃ h e, suffix = [Acquired; Fetched h] ∧ o = Thrown e)
       ∨ ∃ h, suffix = [Acquired; Fetched h; Closed]).
Proof.
  assert (Hnil : ∀ o1, (o1, w) = (o, w') →
            ∃ suffix, journal w' = (journal w ++ suffix)%list
              ∧ (suffix = []
                 ∨ (∃ h e, suffix = [Acquired; Fetched h] ∧ o = Thrown e)
                 ∨ ∃ h, suffix = [Acquired; Fetched h; Closed])).
  { intros o1 [= _ <-]. exists []. rewrite app_nil_r. auto. }
  unfold enrich.
  destruct (height details) as [h|]; [|apply Hnil].
  destruct (h =? -1); [apply Hnil|].
  unfold bind at 1. destruct (getNetwork app) as [reason|[network|]]; simpl;
    try apply Hnil.
  unfold bind at 1, getBlockHeader.
  destruct (headers w !! (network, h)) as [bh|]; [apply Hnil|].
  unfold acquireChainSource, fetchBlockHeader, close, bind, emit.
  destruct (getChainSource app network) as [reason|[cs|]]; simpl; try apply Hnil.
  destruct (cs_fetchBlockHeader cs h) as [reason|[bh|]]; simpl.
  - intros [= <- <-]. exists [Acquired; Fetched h]. simpl. rewrite <- app_assoc.
    split; [reflexivity|]. right; left. eauto.
  - destruct (cs_close cs) as [reason|[]]; simpl; intros [= <- <-];
      exists [Acquired; Fetched h; Closed]; simpl; rewrite <- !app_assoc; eauto 10.
  - destruct (cs_close cs) as [reason|[]]; simpl; intros [= <- <-];
      exists [Acquired; Fetched h; Closed]; simpl; rewrite <- !app_assoc; eauto 10.
Qed.

End HeaderCache.

(** * The claims about the flow computer *)

Section Claims.
Context `{LiquidJS}.

(** C1 (amended): for a record with [hex] present and a known confirmation
    height, the network known and the header stage passed, a pure
    native-asset self-transfer (after both passes the flow has exactly one
    entry, for the native asset, and that entry plus the fee is 0) is
    returned with flow [{ nativeAsset: 0 }]. *)
Theorem self_transfer_reports_zero app wallet details hx transaction w fee flow v h network :
  hex details = Some hx → hx ≠ "" → Transaction_fromHex hx = inr transaction →
  (passes wallet transaction w).1 = Returned (fee, flow) →
  size flow = 1%nat → flow !! networks_assetHash network = Some v → v + fee = 0 →
  height details = Some h → h ≠ -1 →
  getNetwork app = inr (Some network) →
  headerStagePasses app network h w →
  ∃ r w', computeTxDetailsExtended app wallet details w = (Returned r, w')
          ∧ txFlow r = {[networks_assetHash network := 0]}.
Proof.
  intros Hhex Hne Hparse Hpass Hsize Hv Hsum Hh Hconf Hnet Hstage.
  rewrite (computeTxDetailsExtended_after_passes _ _ _ _ _ _ _ Hhex Hne Hparse Hpass).
  destruct (enrich_corrects app details (Transaction_getId transaction) fee flow
              h network w Hh Hconf Hnet Hstage) as (r & w' & Hrun & Hflow & _).
  exists r, w'. split; [exact Hrun|].
  rewrite Hflow. now apply selfTransferCorrection_single with v.
Qed.

(** C2 (amended): for a record with [hex] present and a known confirmation
    height, the network known and the header stage passed, when the native
    entry plus the fee is 0 and the flow holds another asset, the native
    entry is removed and every other entry is returned as accumulated. *)
Theorem fee_only_native_entry_removed
    app wallet details hx transaction w fee flow v other h network :
  hex details = Some hx → hx ≠ "" → Transaction_fromHex hx = inr transaction →
  (passes wallet transaction w).1 = Returned (fee, flow) →
  flow !! networks_assetHash network = Some v → v + fee = 0 →
  other ≠ networks_assetHash network → is_Some (flow !! other) →
  height details = Some h → h ≠ -1 →
  getNetwork app = inr (Some network) →
  headerStagePasses app network h w →
  ∃ r w', computeTxDetailsExtended app wallet details w = (Returned r, w')
          ∧ txFlow r !! networks_assetHash network = None
          ∧ ∀ asset, asset ≠ networks_assetHash network → txFlow r !! asset = flow !! asset.
Proof.
  intros Hhex Hne Hparse Hpass Hv Hsum Hother Hsome Hh Hconf Hnet Hstage.
  rewrite (computeTxDetailsExtended_after_passes _ _ _ _ _ _ _ Hhex Hne Hparse Hpass).
  destruct (enrich_corrects app details (Transaction_getId transaction) fee flow
              h network w Hh Hconf Hnet Hstage) as (r & w' & Hrun & Hflow & _).
  exists r, w'. split; [exact Hrun|].
  rewrite Hflow, (selfTransferCorrection_several _ _ v _ other) by assumption.
  split; [apply lookup_delete_eq|].
  intros asset Hasset. now apply lookup_delete_ne.
Qed.

(** C10: an unconfirmed record, and a confirmed record whose header is not
    cached while no chain source is available, is returned with the flow as
    accumulated by the passes, without the self-transfer correction: a native
    entry equal to minus the fee stays as it is. *)
Theorem no_correction_without_header_stage app wallet details hx transaction w fee flow :
  hex details = Some hx → hx ≠ "" → Transaction_fromHex hx = inr transaction →
  (passes wallet transaction w).1 = Returned (fee, flow) →
  (height details = None ∨ height details = Some (-1) ∨
   ∃ h network, height details = Some h ∧ h ≠ -1 ∧
     getNetwork app = inr (Some network) ∧
     headers w !! (network, h) = None ∧
     getChainSource app network = inr None) →
  ∃ r, computeTxDetailsExtended app wallet details w = (Returned r, w)
       ∧ txFlow r = flow ∧ feeAmount r = fee ∧ blockHeader r = None
       ∧ ∀ network v, flow !! networks_assetHash network = Some v → v + fee = 0 →
           txFlow r !! networks_assetHash network = Some (- fee).
Proof.
  intros Hhex Hne Hparse Hpass Hcase.
  rewrite (computeTxDetailsExtended_after_passes _ _ _ _ _ _ _ Hhex Hne Hparse Hpass).
  simpl.
  assert (Hrun : enrich app details (Transaction_getId transaction) fee flow w
                 = (Returned {| x_height := height details; x_hex := hex details;
                                txID := Transaction_getId transaction; txFlow := flow;
                                feeAmount := fee; blockHeader := None |}, w)).
  { destruct Hcase as [Hh|[Hh|(h & network & Hh & Hconf & Hnet & Hmiss & Hcs)]].
    - apply enrich_unconfirmed; auto.
    - apply enrich_unconfirmed; auto.
    - now apply enrich_no_source with h network. }
  eexists. split; [exact Hrun|]. simpl. repeat split.
  intros network v Hv Hsum. rewrite Hv. f_equal. lia.
Qed.

(** C5 (amended): once the passes are done on a record with a known
    confirmation height, a missing active network makes the call fail with
    ['network not found']; a missing chain source (on a header that is not
    cached) does not: the call returns the record without block header. An
    unconfirmed record never fails with ['network not found']. *)
Theorem network_not_found_when_confirmed :
  (∀ app wallet details hx transaction w st h,
     hex details = Some hx → hx ≠ "" → Transaction_fromHex hx = inr transaction →
     (passes wallet transaction w).1 = Returned st →
     height details = Some h → h ≠ -1 →
     getNetwork app = inr None →
     computeTxDetailsExtended app wallet details w = (Thrown NetworkNotFound, w))
  ∧ (∀ app wallet details hx transaction w st h network,
     hex details = Some hx → hx ≠ "" → Transaction_fromHex hx = inr transaction →
     (passes wallet transaction w).1 = Returned st →
     height details = Some h → h ≠ -1 →
     getNetwork app = inr (Some network) →
     headers w !! (network, h) = None →
     getChainSource app network = inr None →
     ∃ r, computeTxDetailsExtended app wallet details w = (Returned r, w)
          ∧ blockHeader r = None ∧ txFlow r = st.2 ∧ feeAmount r = st.1)
  ∧ (∀ app wallet details w,
     height details = None ∨ height details = Some (-1) →
     (computeTxDetailsExtended app wallet details w).1 ≠ Thrown NetworkNotFound).
Proof.
  split; [|split].
  - intros app wallet details hx transaction w st h Hhex Hne Hparse Hpass Hh Hconf Hnet.
    rewrite (computeTxDetailsExtended_after_passes _ _ _ _ _ _ _ Hhex Hne Hparse Hpass).
    rewrite (enrich_confirmed _ _ _ _ _ _ _ Hh Hconf).
    unfold bind. rewrite Hnet. reflexivity.
  - intros app wallet details hx transaction w [fee flow] h network
      Hhex Hne Hparse Hpass Hh Hconf Hnet Hmiss Hcs.
    rewrite (computeTxDetailsExtended_after_passes _ _ _ _ _ _ _ Hhex Hne Hparse Hpass).
    rewrite (enrich_no_source _ _ _ _ _ _ _ _ Hh Hconf Hnet Hmiss Hcs).
    eexists; repeat split; reflexivity.
  - intros app wallet details w Hh Hthrown.
    destruct (computeTxDetailsExtended_unconfirmed_exn _ _ _ _ _ Hh Hthrown)
      as [?|[reason ?]]; discriminate.
Qed.

(** C6 (amended): the call fails with ['tx hex not found'] exactly when the
    record's [hex] is absent or the empty string; it then fails before
    anything else happens, whatever the collaborators are. *)
Theorem tx_hex_not_found_iff app wallet details w :
  (hex details = None ∨ hex details = Some "" →
   computeTxDetailsExtended app wallet details w = (Thrown TxHexNotFound, w))
  ∧ ((computeTxDetailsExtended app wallet details w).1 = Thrown TxHexNotFound →
     hex details = None ∨ hex details = Some "").
Proof.
  split.
  - intros [Hhex|Hhex]; unfold computeTxDetailsExtended; rewrite Hhex; reflexivity.
  - intros Hthrown. destruct (hex details) as [hx|] eqn:Hhex; [|now left].
    destruct (decide (hx = "")) as [->|Hne]; [now right|].
    destruct (computeTxDetailsExtended_present_exn _ _ _ _ _ _ Hhex Hne Hthrown)
      as [?|[reason ?]]; discriminate.
Qed.

(** C3 (amended): an output with a non-empty script and an explicit value
    whose script decompiles to contain OP_RETURN contributes nothing,
    whatever its amount and asset: its iteration leaves the fee and the flow
    as they are, and the loop over the outputs is the loop over those before
    it followed by the loop over those after it. A confidential output with
    a script is handled before the burn test is reached: whatever its script
    decompiles to, OP_RETURN included, it is counted when its secret is
    stored. *)
Theorem burn_output_rule :
  (∀ wallet id before output after i st w,
     out_script output ≠ [] →
     includesOpReturn (out_script output) = true →
     isConfidential (ElementsValue_fromBytes (out_value output)) = false →
     outputBody wallet id (i + List.length before) output st w = (Returned st, w)
     ∧ forIndex (outputBody wallet id) i (before ++ output :: after) st w
       = (let* st' := forIndex (outputBody wallet id) i before st in
          forIndex (outputBody wallet id) (S (i + List.length before)) after st') w)
  ∧ (∀ wallet id outIndex output st w data bd,
     out_script output ≠ [] →
     isConfidential (ElementsValue_fromBytes (out_value output)) = true →
     getOutputBlindingData wallet id outIndex = inr (Some data) →
     uo_blindingData data = Some bd →
     outputBody wallet id outIndex output st w
     = (Returned (st.1, credit (ud_asset bd) (ud_value bd) st.2), w)).
Proof.
  split.
  - intros wallet id before output after i st w Hscript Hburn Hexplicit.
    assert (Hstep : ∀ k st' w', outputBody wallet id k output st' w' = (Returned st', w')).
    { intros k st' w'. unfold outputBody.
      rewrite decide_False by (destruct (out_script output); [congruence|discriminate]).
      rewrite Hexplicit, Hburn. reflexivity. }
    split; [apply Hstep|].
    rewrite forIndex_app. unfold bind at 1 2.
    destruct (forIndex _ i before st w) as [[st'|e] w']; [|reflexivity].
    simpl. unfold bind at 1. now rewrite Hstep.
  - intros wallet id outIndex output st w data bd Hscript Hconf Hdata Hbd.
    unfold outputBody.
    rewrite decide_False by (destruct (out_script output); [congruence|discriminate]).
    rewrite Hconf. unfold bind. rewrite Hdata. simpl. now rewrite Hbd.
Qed.


(** C7 (the code departs from the claim): on a cache miss the acquired
    connection is not closed when the fetch rejects. The call fails with the
    rejection and the journal ends with the acquisition and the fetch: one
    more connection acquired, none released. *)
Theorem connection_left_open_when_fetch_rejects
    app wallet details hx transaction w st h network cs reason :
  hex details = Some hx → hx ≠ "" → Transaction_fromHex hx = inr transaction →
  (passes wallet transaction w).1 = Returned st →
  height details = Some h → h ≠ -1 →
  getNetwork app = inr (Some network) →
  headers w !! (network, h) = None →
  getChainSource app network = inr (Some cs) →
  cs_fetchBlockHeader cs h = inl reason →
  ∃ w', computeTxDetailsExtended app wallet details w = (Thrown (Foreign reason), w')
        ∧ journal w' = (journal w ++ [Acquired; Fetched h])%list
        ∧ acquisitions (journal w') = S (acquisitions (journal w))
        ∧ releases (journal w') = releases (journal w).
Proof.
  intros Hhex Hne Hparse Hpass Hh Hconf Hnet Hmiss Hcs Hfetch.
  rewrite (computeTxDetailsExtended_after_passes _ _ _ _ _ _ _ Hhex Hne Hparse Hpass).
  rewrite (enrich_confirmed _ _ _ _ _ _ _ Hh Hconf).
  unfold bind at 1. rewrite Hnet. simpl.
  unfold bind at 1, getBlockHeader. rewrite Hmiss.
  unfold acquireChainSource, fetchBlockHeader, bind, emit. rewrite Hcs. simpl.
  rewrite Hfetch. simpl.
  eexists. split; [reflexivity|]. simpl. rewrite <- app_assoc. simpl.
  split; [reflexivity|].
  unfold acquisitions, releases. rewrite !List.filter_app, !length_app. simpl.
  split; lia.
Qed.

(** C8: when a lookup of (network, height) misses and the call it belongs
    to returns with a header persisted under that key, that call fetched
    once, and a second call for the same height afterwards fetches nothing
    and leaves the world as it is: it finds the persisted header, the very
    one the first call returned, and returns once its passes are done. At
    most one fetch is issued across the two calls. *)
Theorem second_lookup_hits_store app wallet details1 details2 h network w0 r1 w1 :
  height details1 = Some h → height details2 = Some h → h ≠ -1 →
  getNetwork app = inr (Some network) →
  headers w0 !! (network, h) = None →
  computeTxDetailsExtended app wallet details1 w0 = (Returned r1, w1) →
  is_Some (headers w1 !! (network, h)) →
  blockHeader r1 = headers w1 !! (network, h)
  ∧ fetches (journal w1) = S (fetches (journal w0))
  ∧ ∀ o2 w2,
      computeTxDetailsExtended app wallet details2 w1 = (o2, w2) →
      w2 = w1
      ∧ (fetches (journal w2) ≤ S (fetches (journal w0)))%nat
      ∧ (∀ r2, o2 = Returned r2 → blockHeader r2 = blockHeader r1)
      ∧ ∀ hx transaction st,
          hex details2 = Some hx → hx ≠ "" → Transaction_fromHex hx = inr transaction →
          (passes wallet transaction w1).1 = Returned st →
          ∃ r2, o2 = Returned r2.
Proof.
  intros Hh1 Hh2 Hconf Hnet Hmiss Hrun1 Hkept.
  destruct (computeTxDetailsExtended_cases app wallet details1 w0)
    as [[e He]|(id & fee & flow & He)]; rewrite He in Hrun1; [discriminate|].
  destruct (enrich_miss_persisted _ _ _ _ _ _ _ _ _ _ Hh1 Hconf Hnet Hmiss Hrun1 Hkept)
    as [Hbh Hfetch].
  split; [exact Hbh|]. split; [exact Hfetch|].
  intros o2 w2 Hrun2.
  destruct Hkept as [bh Hlook].
  destruct (computeTxDetailsExtended_cases app wallet details2 w1)
    as [[e He2]|(id2 & fee2 & flow2 & He2)]; rewrite He2 in Hrun2.
  - injection Hrun2 as <- <-. split; [reflexivity|]. split; [lia|].
    split; [discriminate|].
    intros hx transaction st Hhex Hne Hparse Hpass.
    rewrite (computeTxDetailsExtended_after_passes _ _ _ _ _ _ _ Hhex Hne Hparse Hpass),
      (enrich_hit _ _ _ _ _ _ _ _ _ Hh2 Hconf Hnet Hlook) in He2.
    discriminate.
  - rewrite (enrich_hit _ _ _ _ _ _ _ _ _ Hh2 Hconf Hnet Hlook) in Hrun2.
    injection Hrun2 as <- <-. split; [reflexivity|]. split; [lia|].
    split; [|eauto].
    intros r2 [= <-]. simpl. congruence.
Qed.

End Claims.

(** * Further properties *)

(** ** computeBalances *)

Lemma mentions_entryOf (utxos : list UnblindedOutput) (a : string) :
  mentions a (omap entryOf utxos) = true ↔
  ∃ utxo bd, utxo ∈ utxos ∧ uo_blindingData utxo = Some bd ∧ ud_asset bd = a.
Proof.
  unfold mentions. rewrite existsb_exists. split.
  - intros ([k v] & Hin & Hk). apply bool_decide_eq_true in Hk. simpl in Hk. subst k.
    apply list_elem_of_In, list_elem_of_omap in Hin as (utxo & Hutxo & Hentry).
    unfold entryOf in Hentry.
    destruct (uo_blindingData utxo) as [bd|] eqn:Hbd; [|discriminate].
    injection Hentry as Ha Hv. eauto.
  - intros (utxo & bd & Hutxo & Hbd & Ha). exists (a, ud_value bd). split.
    + apply list_elem_of_In, list_elem_of_omap. exists utxo. split; [assumption|].
      unfold entryOf. rewrite Hbd. now rewrite Ha.
    + now apply bool_decide_eq_true.
Qed.

(** X1: for an asset named by a hex string (an ordinary key of the object),
    the asset has an entry exactly when some output is unblinded to it (also
    when the values sum to 0); and while the absolute values unblinded to
    it sum to at most 2^53, its balance is the exact sum of those values. *)
Theorem computeBalances_sums_per_asset (utxos : list UnblindedOutput) (a : string) :
  isLowerHex a = true →
  (computeBalances utxos !! a = None ↔
     ∀ utxo bd, utxo ∈ utxos → uo_blindingData utxo = Some bd → ud_asset bd ≠ a)
  ∧ (volume a (omap entryOf utxos) ≤ 2 ^ 53 →
     ∀ v, computeBalances utxos !! a = Some v → v = total a (omap entryOf utxos)).
Proof.
  intros _. split.
  - rewrite computeBalances_presence. pose proof (mentions_entryOf utxos a) as Hm.
    destruct (mentions a (omap entryOf utxos)).
    + split; [discriminate|]. intros Hnone.
      destruct (proj1 Hm eq_refl) as (utxo & bd & Hutxo & Hbd & Ha).
      now destruct (Hnone utxo bd Hutxo Hbd).
    + split; [|reflexivity]. intros _ utxo bd Hutxo Hbd Ha.
      assert (false = true) by (apply Hm; eauto). discriminate.
  - intros Hvol v. rewrite computeBalances_lookup_entries by assumption.
    destruct (mentions a (omap entryOf utxos)); [|discriminate]. now intros [= <-].
Qed.

(** X2: for an asset named by a hex string whose absolute values in the two
    lists together sum to at most 2^53, the balance of the concatenation is
    the sum of the balances of the two lists (the balance of the one list
    that has the asset, when only one has). *)
Theorem computeBalances_app (utxos1 utxos2 : list UnblindedOutput) (a : string) :
  isLowerHex a = true →
  volume a (omap entryOf (utxos1 ++ utxos2)%list) ≤ 2 ^ 53 →
  computeBalances (utxos1 ++ utxos2)%list !! a
  = union_with (λ x y, Some (x + y)) (computeBalances utxos1 !! a)
      (computeBalances utxos2 !! a).
Proof.
  intros _ Hvol.
  pose proof (volume_nonneg a (omap entryOf utxos1)).
  pose proof (volume_nonneg a (omap entryOf utxos2)).
  rewrite omap_app, volume_app in Hvol.
  rewrite !computeBalances_lookup_entries by (rewrite ?omap_app, ?volume_app; lia).
  rewrite omap_app, mentions_app, total_app.
  destruct (mentions a (omap entryOf utxos1)) eqn:H1,
           (mentions a (omap entryOf utxos2)) eqn:H2; simpl; try reflexivity.
  - f_equal. rewrite (total_unmentioned _ _ H2). lia.
  - f_equal. rewrite (total_unmentioned _ _ H1). lia.
Qed.

(** X3: when no output carries a negative value, no balance is negative. *)
Theorem computeBalances_nonnegative (utxos : list UnblindedOutput) :
  (∀ utxo bd, utxo ∈ utxos → uo_blindingData utxo = Some bd → 0 ≤ ud_value bd) →
  ∀ a v, computeBalances utxos !! a = Some v → 0 ≤ v.
Proof.
  intros Hpos a v. unfold computeBalances. rewrite computeBalances_entries.
  apply applyEntries_nonneg.
  - intros k x. rewrite lookup_empty. discriminate.
  - intros [k x] Hin.
    apply list_elem_of_omap in Hin as (utxo & Hutxo & Hentry).
    unfold entryOf in Hentry.
    destruct (uo_blindingData utxo) as [bd|] eqn:Hbd; [|discriminate].
    injection Hentry as _ <-. simpl. now apply (Hpos utxo bd).
Qed.

(** ** reverseHex *)

Lemma Buffer_fromHex_byte (x : Byte.byte) (r : string) :
  Buffer_fromHex
    (String (hexDigit (Byte.to_N x / 16)) (String (hexDigit (Byte.to_N x mod 16)) r))
  = x :: Buffer_fromHex r.
Proof. destruct x; reflexivity. Qed.

Lemma Buffer_fromHex_toHex (b : bytes) : Buffer_fromHex (toHex b) = b.
Proof.
  induction b as [|x b IH]; [reflexivity|].
  cbn [toHex]. now rewrite Buffer_fromHex_byte, IH.
Qed.

Lemma length_toHex (b : bytes) : String.length (toHex b) = (2 * List.length b)%nat.
Proof. induction b as [|x b IH]; simpl; [reflexivity|]. rewrite IH. lia. Qed.

Lemma lowerHexDigit_value (c : ascii) :
  isLowerHexDigit c = true →
  ∃ x, (x < 16)%N ∧ hexValue c = Some x ∧ hexDigit x = c.
Proof.
  destruct c as [[] [] [] [] [] [] [] []]; intros Hc; try discriminate Hc;
    eexists; (split; [|split; reflexivity]); reflexivity.
Qed.

Lemma toHex_Buffer_fromHex_pair (a b : ascii) (r : string) :
  isLowerHexDigit a = true → isLowerHexDigit b = true →
  ∃ x, Buffer_fromHex (String a (String b r)) = x :: Buffer_fromHex r
       ∧ hexDigit (Byte.to_N x / 16) = a ∧ hexDigit (Byte.to_N x mod 16) = b.
Proof.
  intros Ha Hb.
  destruct (lowerHexDigit_value a Ha) as (x & Hx & Hva & Hda).
  destruct (lowerHexDigit_value b Hb) as (y & Hy & Hvb & Hdb).
  cbn [Buffer_fromHex]. rewrite Hva, Hvb.
  destruct (Byte.of_N (16 * x + y)) as [byte|] eqn:Hbyte.
  - exists byte. split; [reflexivity|].
    apply Byte.to_of_N in Hbyte. rewrite Hbyte.
    replace ((16 * x + y) / 16)%N with x
      by (apply (N.div_unique _ 16%N x y); lia).
    replace ((16 * x + y) mod 16)%N with y
      by (apply (N.mod_unique _ 16%N x y); lia).
    rewrite Hda, Hdb. now split.
  - apply Byte.of_N_None_iff in Hbyte. lia.
Qed.

Lemma toHex_Buffer_fromHex (s : string) :
  (isLowerHex s = true → toHex (Buffer_fromHex s) = s)
  ∧ (∀ c, isLowerHex (String c s) = true →
          toHex (Buffer_fromHex (String c s)) = String c s).
Proof.
  induction s as [|b r [IH0 IH1]].
  - split; [reflexivity|]. intros c Hc; discriminate Hc.
  - split; [apply IH1|]. intros a Hab. cbn [isLowerHex] in Hab.
    apply andb_prop in Hab as [Hab Hr]. apply andb_prop in Hab as [Ha Hb].
    destruct (toHex_Buffer_fromHex_pair a b r Ha Hb) as (x & -> & Hhi & Hlo).
    cbn [toHex]. rewrite Hhi, Hlo. f_equal. f_equal.
    destruct r as [|c r]; [reflexivity|]. now apply IH0.
Qed.

(** X4: on the hex rendering of a buffer, [reverseHex] gives the hex
    rendering of the bytes in reverse order, a string of the same length. *)
Theorem reverseHex_toHex (b : bytes) :
  reverseHex (toHex b) = toHex (rev b)
  ∧ String.length (reverseHex (toHex b)) = String.length (toHex b).
Proof.
  unfold reverseHex. rewrite Buffer_fromHex_toHex. split; [reflexivity|].
  now rewrite !length_toHex, length_rev.
Qed.

(** X5: on a string of an even number of lower-case hexadecimal digits
    [reverseHex] keeps the length and undoes itself. *)
Theorem reverseHex_involutive (hex : string) :
  isLowerHex hex = true →
  reverseHex (reverseHex hex) = hex
  ∧ String.length (reverseHex hex) = String.length hex.
Proof.
  intros Hhex. pose proof (proj1 (toHex_Buffer_fromHex hex) Hhex) as Hround.
  unfold reverseHex. rewrite Buffer_fromHex_toHex, rev_involutive. split; [exact Hround|].
  rewrite length_toHex, length_rev, <- length_toHex. now rewrite Hround.
Qed.

(** ** The two passes, entry by entry *)

Section Passes.
Context `{LiquidJS}.

Lemma debit_credit k v (m : gmap string Z) : debit k v m = credit k (- v) m.
Proof. unfold debit, credit. f_equal. Qed.

Lemma default_last_cons (x d : Z) (l : list Z) :
  default d (last (x :: l)) = default x (last l).
Proof. rewrite last_cons. destruct (last l); reflexivity. Qed.

Lemma outputBody_returned wallet id i output st w st' w' :
  outputBody wallet id i output st w = (Returned st', w') →
  st'.1 = (if decide (List.length (out_script output) = 0%nat)
           then number (ElementsValue_fromBytes (out_value output)) else st.1)
  ∧ st'.2 = foldl applyEntry st.2 (creditedByOutput wallet id i output).
Proof.
  unfold outputBody, creditedByOutput, storedSecret.
  case_decide.
  { unfold getNumber, bind. destruct (isConfidential _); [discriminate|].
    now intros [= <- _]. }
  destruct (isConfidential _).
  - unfold bind. destruct (getOutputBlindingData wallet id i) as [reason|[d|]]; simpl;
      [discriminate| |now intros [= <- _]].
    destruct (uo_blindingData d); now intros [= <- _].
  - destruct (includesOpReturn _); now intros [= <- _].
Qed.

Lemma inputBody_returned wallet i input flow w flow' w' :
  inputBody wallet i input flow w = (Returned flow', w') →
  flow' = foldl applyEntry flow (map negated (debitedByInput wallet input)).
Proof.
  unfold inputBody, debitedByInput, inputOutpoint, storedSecret, bind at 1. simpl.
  destruct (getWitnessUtxo wallet _ _) as [reason|[output|]]; simpl;
    [discriminate| |now intros [= <- _]].
  destruct (isConfidential _).
  - unfold bind. destruct (getOutputBlindingData wallet _ _) as [reason|[d|]]; simpl;
      [discriminate| |now intros [= <- _]].
    destruct (uo_blindingData d); [|now intros [= <- _]].
    intros [= <- _]. simpl. unfold applyEntry, negated. simpl. apply debit_credit.
  - intros [= <- _]. simpl. unfold applyEntry, negated. simpl. apply debit_credit.
Qed.

Lemma outputs_pass_returned wallet id outs :
  ∀ i st w st' w',
    forIndex (outputBody wallet id) i outs st w = (Returned st', w') →
    st'.1 = default st.1 (last (feeValues outs))
    ∧ st'.2 = foldl applyEntry st.2 (creditedBy wallet id i outs).
Proof.
  induction outs as [|output outs IH]; intros i st w st' w'; simpl.
  - now intros [= <- _].
  - unfold bind. destruct (outputBody wallet id i output st w) as [[s1|e] w1] eqn:Hbody;
      [|discriminate].
    intros Hrest. apply outputBody_returned in Hbody as [Hfee Hflow].
    apply IH in Hrest as [Hfee' Hflow'].
    rewrite Hfee', Hflow', Hfee, Hflow, foldl_app. split; [|reflexivity].
    unfold feeValues. simpl. case_decide.
    + rewrite bool_decide_eq_true_2 by assumption. simpl.
      now rewrite default_last_cons.
    + rewrite bool_decide_eq_false_2 by assumption. reflexivity.
Qed.

Lemma inputs_pass_returned wallet ins :
  ∀ i flow w flow' w',
    forIndex (inputBody wallet) i ins flow w = (Returned flow', w') →
    flow' = foldl applyEntry flow (map negated (debitedBy wallet ins)).
Proof.
  induction ins as [|input ins IH]; intros i flow w flow' w'; simpl.
  - now intros [= <- _].
  - unfold bind. destruct (inputBody wallet i input flow w) as [[f1|e] w1] eqn:Hbody;
      [|discriminate].
    intros Hrest. apply inputBody_returned in Hbody. apply IH in Hrest.
    rewrite Hrest, Hbody, map_app, foldl_app. reflexivity.
Qed.

Lemma passes_returned wallet transaction w fee flow :
  (passes wallet transaction w).1 = Returned (fee, flow) →
  fee = default 0 (last (feeValues (tx_outs transaction)))
  ∧ flow = foldl applyEntry ∅
             (creditedBy wallet (Transaction_getId transaction) 0 (tx_outs transaction)
              ++ map negated (debitedBy wallet (tx_ins transaction))).
Proof.
  unfold passes, bind.
  destruct (forIndex (outputBody _ _) _ _ _ w) as [[st|e] w1] eqn:Hout; [|discriminate].
  destruct (forIndex (inputBody _) _ _ _ w1) as [[flow'|e] w2] eqn:Hin; [|discriminate].
  simpl. intros [= <- <-].
  apply outputs_pass_returned in Hout as [Hfee Hflow].
  apply inputs_pass_returned in Hin. simpl in Hfee, Hflow.
  rewrite foldl_app, <- Hflow, <- Hin. now split.
Qed.

Lemma total_negated a (es : list (string * Z)) :
  total a (map negated es) = - total a es.
Proof.
  induction es as [|e es IH]; simpl; [reflexivity|].
  rewrite IH. case_decide; lia.
Qed.

Lemma mentions_negated a (es : list (string * Z)) :
  mentions a (map negated es) = mentions a es.
Proof. induction es as [|e es IH]; simpl; [reflexivity|]. now rewrite IH. Qed.

(** X6: the fee of a returned record is the amount of the last output with
    an empty script, and 0 when the transaction has none. *)
Theorem feeAmount_is_last_fee_output app wallet details hx transaction w r w' :
  hex details = Some hx → Transaction_fromHex hx = inr transaction →
  computeTxDetailsExtended app wallet details w = (Returned r, w') →
  feeAmount r = default 0 (last (feeValues (tx_outs transaction))).
Proof.
  intros Hhex Hparse Hrun.
  destruct (computeTxDetailsExtended_returned _ _ _ _ _ _ Hrun)
    as (hx' & tx' & fee & flow & Hhex' & _ & Hparse' & Hpass & Henrich).
  assert (hx' = hx) by congruence. subst hx'.
  assert (tx' = transaction) by congruence. subst tx'.
  apply enrich_returned in Henrich as (_ & _ & _ & -> & _).
  now apply passes_returned in Hpass as [-> _].
Qed.

Lemma volume_negated a (es : list (string * Z)) :
  volume a (map negated es) = volume a es.
Proof.
  induction es as [|e es IH]; simpl; [reflexivity|].
  rewrite IH. case_decide; lia.
Qed.

(** X7: after both passes, an asset named by a hex string has an entry in
    the flow exactly when an output or an input moves it (also when the
    movements cancel); and while the absolute amounts moved on it sum to at
    most 2^53, its flow is what the outputs add to it minus what the inputs
    take from it. *)
Theorem flow_is_credits_minus_debits wallet transaction w fee flow a :
  (passes wallet transaction w).1 = Returned (fee, flow) →
  isLowerHex a = true →
  (flow !! a = None ↔
     mentions a (creditedBy wallet (Transaction_getId transaction) 0 (tx_outs transaction))
     = false
     ∧ mentions a (debitedBy wallet (tx_ins transaction)) = false)
  ∧ (volume a (creditedBy wallet (Transaction_getId transaction) 0 (tx_outs transaction))
     + volume a (debitedBy wallet (tx_ins transaction)) ≤ 2 ^ 53 →
     flow !! a
     = if mentions a (creditedBy wallet (Transaction_getId transaction) 0
                        (tx_outs transaction))
          || mentions a (debitedBy wallet (tx_ins transaction))
       then Some (total a (creditedBy wallet (Transaction_getId transaction) 0
                             (tx_outs transaction))
                  - total a (debitedBy wallet (tx_ins transaction)))
       else None).
Proof.
  intros Hpass _. apply passes_returned in Hpass as [_ ->]. split.
  - rewrite applyEntries_presence, mentions_app, mentions_negated, lookup_empty.
    rewrite orb_false_iff. tauto.
  - intros Hvol.
    rewrite applyEntries_lookup
      by (rewrite volume_app, volume_negated, lookup_empty; simpl; lia).
    rewrite mentions_app, total_app, mentions_negated, total_negated, lookup_empty.
    simpl. destruct (_ || _); [f_equal; lia|reflexivity].
Qed.

End Passes.

(** ** What the flow computer reads, keeps and leaves behind *)

Section Conduct.
Context `{LiquidJS}.

Lemma outputs_pass_frame wallet1 wallet2 id outs :
  ∀ i st w,
    (∀ j, (i ≤ j < i + List.length outs)%nat →
          getOutputBlindingData wallet1 id j = getOutputBlindingData wallet2 id j) →
    forIndex (outputBody wallet1 id) i outs st w = forIndex (outputBody wallet2 id) i outs st w.
Proof.
  induction outs as [|output outs IH]; intros i st w Hsame; simpl; [reflexivity|].
  simpl in Hsame. unfold bind.
  replace (outputBody wallet1 id i output st w) with (outputBody wallet2 id i output st w)
    by (unfold outputBody; rewrite (Hsame i) by lia; reflexivity).
  destruct (outputBody wallet2 id i output st w) as [[s1|e] w1]; [|reflexivity].
  apply IH. intros j Hj. apply Hsame. lia.
Qed.

Lemma inputs_pass_frame wallet1 wallet2 ins :
  (∀ input, input ∈ ins →
     getWitnessUtxo wallet1 (inputOutpoint input).1 (inputOutpoint input).2
     = getWitnessUtxo wallet2 (inputOutpoint input).1 (inputOutpoint input).2
     ∧ getOutputBlindingData wallet1 (inputOutpoint input).1 (inputOutpoint input).2
       = getOutputBlindingData wallet2 (inputOutpoint input).1 (inputOutpoint input).2) →
  ∀ i flow w,
    forIndex (inputBody wallet1) i ins flow w = forIndex (inputBody wallet2) i ins flow w.
Proof.
  induction ins as [|input ins IH]; intros Hsame i flow w; simpl; [reflexivity|].
  unfold bind.
  replace (inputBody wallet1 i input flow w) with (inputBody wallet2 i input flow w).
  - destruct (inputBody wallet2 i input flow w) as [[f1|e] w1]; [|reflexivity].
    apply IH. intros input' Hin. apply Hsame. now right.
  - destruct (Hsame input) as [Hutxo Hsecret]; [left|].
    unfold inputOutpoint in Hutxo, Hsecret. simpl in Hutxo, Hsecret.
    unfold inputBody. now rewrite Hutxo, Hsecret.
Qed.

Lemma inputs_pass_unknown wallet ins :
  (∀ input, input ∈ ins →
     getWitnessUtxo wallet (inputOutpoint input).1 (inputOutpoint input).2 = inr None) →
  ∀ i flow w, forIndex (inputBody wallet) i ins flow w = (Returned flow, w).
Proof.
  induction ins as [|input ins IH]; intros Hnone i flow w; simpl; [reflexivity|].
  unfold bind. rewrite inputBody_unknown by (apply (Hnone input); left).
  apply IH. intros input' Hin. apply Hnone. now right.
Qed.

Lemma selfTransferCorrection_other native fee (flow : gmap string Z) asset :
  asset ≠ native → selfTransferCorrection native fee flow !! asset = flow !! asset.
Proof.
  intros Hne. unfold selfTransferCorrection.
  destruct (flow !! native) as [v|]; [|reflexivity].
  destruct (jsAdd v fee =? 0); [|reflexivity].
  case_decide; [now rewrite lookup_insert_ne|now rewrite lookup_delete_ne].
Qed.

Lemma selfTransferCorrection_idle native fee (flow : gmap string Z) :
  (∀ v, flow !! native = Some v → v + fee ≠ 0) →
  selfTransferCorrection native fee flow = flow.
Proof.
  intros Hne. unfold selfTransferCorrection.
  destruct (flow !! native) as [v|]; [|reflexivity].
  destruct (Z.eqb_spec (jsAdd v fee) 0) as [Hz|]; [|reflexivity].
  apply jsAdd_zero in Hz. now destruct (Hne v eq_refl).
Qed.

(** X8: the call reads the wallet repository only at the transaction's own
    outputs and at the outpoints its inputs spend: two repositories that
    agree there give the same outcome and the same world. *)
Theorem flow_reads_only_its_outpoints app wallet1 wallet2 details hx transaction w :
  hex details = Some hx → Transaction_fromHex hx = inr transaction →
  (∀ i, (i < List.length (tx_outs transaction))%nat →
     getOutputBlindingData wallet1 (Transaction_getId transaction) i
     = getOutputBlindingData wallet2 (Transaction_getId transaction) i) →
  (∀ input, input ∈ tx_ins transaction →
     getWitnessUtxo wallet1 (inputOutpoint input).1 (inputOutpoint input).2
     = getWitnessUtxo wallet2 (inputOutpoint input).1 (inputOutpoint input).2
     ∧ getOutputBlindingData wallet1 (inputOutpoint input).1 (inputOutpoint input).2
       = getOutputBlindingData wallet2 (inputOutpoint input).1 (inputOutpoint input).2) →
  computeTxDetailsExtended app wallet1 details w
  = computeTxDetailsExtended app wallet2 details w.
Proof.
  intros Hhex Hparse Houts Hins.
  destruct (decide (hx = "")) as [->|Hne].
  { unfold computeTxDetailsExtended. now rewrite Hhex. }
  rewrite !(computeTxDetailsExtended_parsed _ _ _ _ _ _ Hhex Hne Hparse).
  unfold bind at 1 2.
  replace (passes wallet1 transaction w) with (passes wallet2 transaction w); [reflexivity|].
  unfold passes, bind.
  rewrite (outputs_pass_frame wallet1 wallet2) by (intros j Hj; apply Houts; lia).
  destruct (forIndex (outputBody wallet2 _) _ _ _ w) as [[st|e] w1]; [|reflexivity].
  now rewrite (inputs_pass_frame wallet1 wallet2 _ Hins).
Qed.

(** X9: [lockTransactionInputs] rejects with the parser's error when the hex
    does not parse, whatever [lockOutpoints] is; otherwise its outcome is the
    one of [lockOutpoints] on one outpoint per input, in the order of the
    inputs, the transaction id being the [reverseHex] of the input's hash in
    hex. These are the outpoints the input pass of the flow computer looks
    up: when the wallet knows none of them, that pass changes nothing. *)
Theorem lockTransactionInputs_locks_spent_outpoints lockOutpoints txHex w :
  (∀ reason, Transaction_fromHex txHex = inl reason →
     lockTransactionInputs lockOutpoints txHex w = (Thrown (Foreign reason), w))
  ∧ (∀ transaction, Transaction_fromHex txHex = inr transaction →
     lockTransactionInputs lockOutpoints txHex w
     = await (lockOutpoints (map inputOutpoint (tx_ins transaction))) w
     ∧ map fst (map inputOutpoint (tx_ins transaction))
       = map (λ input, reverseHex (toHex (in_hash input))) (tx_ins transaction)
     ∧ map snd (map inputOutpoint (tx_ins transaction)) = map in_index (tx_ins transaction)
     ∧ ∀ wallet i flow w',
         (∀ outpoint, outpoint ∈ map inputOutpoint (tx_ins transaction) →
            getWitnessUtxo wallet outpoint.1 outpoint.2 = inr None) →
         forIndex (inputBody wallet) i (tx_ins transaction) flow w' = (Returned flow, w')).
Proof.
  split.
  - intros reason Hparse. unfold lockTransactionInputs, bind. now rewrite Hparse.
  - intros transaction Hparse. split; [|split; [|split]].
    + unfold lockTransactionInputs, bind. now rewrite Hparse.
    + rewrite map_map. apply map_ext. intros input. simpl.
      unfold reverseHex. now rewrite Buffer_fromHex_toHex.
    + rewrite map_map. reflexivity.
    + intros wallet i flow w' Hnone. apply inputs_pass_unknown.
      intros input Hin. apply (Hnone (inputOutpoint input)).
      now apply list_elem_of_fmap_2.
Qed.

(** X10: a returned record carries the [height] and [hex] it was given and
    the id of the transaction [hex] parses to; for an unconfirmed record it
    has no block header. *)
Theorem returned_record_keeps_input app wallet details w r w' :
  computeTxDetailsExtended app wallet details w = (Returned r, w') →
  x_height r = height details ∧ x_hex r = hex details
  ∧ (∃ hx transaction,
       hex details = Some hx ∧ Transaction_fromHex hx = inr transaction
       ∧ txID r = Transaction_getId transaction)
  ∧ (height details = None ∨ height details = Some (-1) → blockHeader r = None).
Proof.
  intros Hrun.
  destruct (computeTxDetailsExtended_returned _ _ _ _ _ _ Hrun)
    as (hx & transaction & fee & flow & Hhex & _ & Hparse & _ & Henrich).
  apply enrich_returned in Henrich as (Hh & Hx & Hid & _ & _ & Hu).
  split; [exact Hh|]. split; [exact Hx|]. split; [eauto|].
  intros Hunc. now apply Hu.
Qed.

(** X11: one call acquires at most one chain-source connection, fetches
    exactly once on each connection it acquires and closes nothing it did
    not acquire; a call that returns has closed what it acquired. *)
Theorem chain_source_accounting app wallet details w o w' :
  computeTxDetailsExtended app wallet details w = (o, w') →
  ∃ suffix,
    journal w' = (journal w ++ suffix)%list
    ∧ (acquisitions suffix ≤ 1)%nat
    ∧ fetches suffix = acquisitions suffix
    ∧ (releases suffix ≤ acquisitions suffix)%nat
    ∧ ∀ r, o = Returned r → releases suffix = acquisitions suffix.
Proof.
  intros Hrun.
  destruct (computeTxDetailsExtended_cases app wallet details w)
    as [[e He]|(id & fee & flow & He)]; rewrite He in Hrun.
  - injection Hrun as <- <-. exists []. rewrite app_nil_r.
    repeat split; intros; try discriminate;
      unfold acquisitions, releases, fetches; simpl; lia.
  - destruct (enrich_journal _ _ _ _ _ _ _ _ Hrun)
      as (suffix & Hj & [->|[(h & e & -> & ->)|(h & ->)]]);
      eexists; (split; [exact Hj|]);
      repeat split; intros; try discriminate;
      unfold acquisitions, releases, fetches; simpl; lia.
Qed.

(** X12: on an unconfirmed record, and on a record whose header is cached,
    the call leaves the header store and the chain source alone, whatever
    its outcome. *)
Theorem no_header_work_without_need app wallet details w :
  (height details = None ∨ height details = Some (-1) →
   (computeTxDetailsExtended app wallet details w).2 = w)
  ∧ (∀ h network bh,
       height details = Some h → getNetwork app = inr (Some network) →
       headers w !! (network, h) = Some bh →
       (computeTxDetailsExtended app wallet details w).2 = w).
Proof.
  split.
  - intros Hunc.
    destruct (computeTxDetailsExtended_cases app wallet details w)
      as [[e ->]|(id & fee & flow & ->)]; [reflexivity|].
    now rewrite enrich_unconfirmed.
  - intros h network bh Hh Hnet Hhit.
    destruct (computeTxDetailsExtended_cases app wallet details w)
      as [[e ->]|(id & fee & flow & ->)]; [reflexivity|].
    destruct (decide (h = -1)) as [->|Hconf].
    + rewrite enrich_unconfirmed by auto. reflexivity.
    + now rewrite (enrich_hit _ _ _ _ _ _ _ _ _ Hh Hconf Hnet Hhit).
Qed.

(** X13: the self-transfer correction only ever touches the entry of a
    network's native asset: every other asset is returned as accumulated by
    the passes, and so is the whole flow when no native entry equals minus
    the fee. *)
Theorem correction_touches_native_only app wallet details hx transaction w fee flow r w' :
  hex details = Some hx → Transaction_fromHex hx = inr transaction →
  (passes wallet transaction w).1 = Returned (fee, flow) →
  computeTxDetailsExtended app wallet details w = (Returned r, w') →
  (∀ asset, (∀ network, asset ≠ networks_assetHash network) →
     txFlow r !! asset = flow !! asset)
  ∧ ((∀ network v, flow !! networks_assetHash network = Some v → v + fee ≠ 0) →
     txFlow r = flow).
Proof.
  intros Hhex Hparse Hpass Hrun.
  destruct (computeTxDetailsExtended_returned _ _ _ _ _ _ Hrun)
    as (hx' & tx' & fee' & flow' & Hhex' & _ & Hparse' & Hpass' & Henrich).
  assert (hx' = hx) by congruence. subst hx'.
  assert (tx' = transaction) by congruence. subst tx'.
  rewrite Hpass in Hpass'. injection Hpass' as <- <-.
  apply enrich_returned in Henrich as (_ & _ & _ & _ & [Hflow|(network & _ & Hflow)] & _);
    rewrite Hflow.
  - split; reflexivity.
  - split.
    + intros asset Hasset. now apply selfTransferCorrection_other.
    + intros Hnet. apply selfTransferCorrection_idle. apply Hnet.
Qed.

(** X14: a hex that does not parse and a lookup that rejects during the
    passes end the call with that very error, before the network or the
    chain source is asked for and with the world as it was. *)
Theorem failures_before_header_stage app wallet details hx w :
  hex details = Some hx → hx ≠ "" →
  (∀ reason, Transaction_fromHex hx = inl reason →
     computeTxDetailsExtended app wallet details w = (Thrown (Foreign reason), w))
  ∧ (∀ transaction e,
       Transaction_fromHex hx = inr transaction →
       (passes wallet transaction w).1 = Thrown e →
       computeTxDetailsExtended app wallet details w = (Thrown e, w)
       ∧ ∃ reason, e = Foreign reason).
Proof.
  intros Hhex Hne. split.
  - intros reason Hparse. unfold computeTxDetailsExtended. rewrite Hhex.
    destruct hx as [|c hx]; [congruence|]. unfold bind. now rewrite Hparse.
  - intros transaction e Hparse Hpass.
    rewrite (computeTxDetailsExtended_parsed _ _ _ _ _ _ Hhex Hne Hparse).
    unfold bind. destruct (quiet_passes wallet transaction w) as [Hw He].
    destruct (passes wallet transaction w) as [o w1]; simpl in *. subst.
    split; [reflexivity|]. now apply He.
Qed.

(** X15: when the chain source has no header for the height yet, nothing is
    persisted, the connection is closed, and the record is returned without
    block header but with the self-transfer correction applied. *)
Theorem header_not_yet_available
    app wallet details hx transaction w fee flow h network cs :
  hex details = Some hx → hx ≠ "" → Transaction_fromHex hx = inr transaction →
  (passes wallet transaction w).1 = Returned (fee, flow) →
  height details = Some h → h ≠ -1 →
  getNetwork app = inr (Some network) →
  headers w !! (network, h) = None →
  getChainSource app network = inr (Some cs) →
  cs_fetchBlockHeader cs h = inr None →
  cs_close cs = inr tt →
  computeTxDetailsExtended app wallet details w
  = (Returned {| x_height := height details; x_hex := hex details;
                 txID := Transaction_getId transaction;
                 txFlow := selfTransferCorrection (networks_assetHash network) fee flow;
                 feeAmount := fee; blockHeader := None |},
     {| headers := headers w;
        journal := (journal w ++ [Acquired; Fetched h; Closed])%list |}).
Proof.
  intros Hhex Hne Hparse Hpass Hh Hconf Hnet Hmiss Hcs Hfetch Hclose.
  rewrite (computeTxDetailsExtended_after_passes _ _ _ _ _ _ _ Hhex Hne Hparse Hpass).
  rewrite (enrich_confirmed _ _ _ _ _ _ _ Hh Hconf).
  unfold bind at 1. rewrite Hnet. simpl.
  unfold bind at 1, getBlockHeader. rewrite Hmiss.
  unfold acquireChainSource, fetchBlockHeader, close, bind, emit.
  rewrite Hcs. simpl. rewrite Hfetch. simpl. rewrite Hclose. simpl.
  now rewrite <- !app_assoc.
Qed.

End Conduct.

(** ** makeURLwithBlinders *)

Section Explorer.
Context `{LiquidJS}.

Lemma pushBlinders_listed wallet id outs :
  (∀ i, ∃ r, getOutputBlindingData wallet id i = inr r) →
  ∀ i blinders,
    pushBlinders wallet id i outs blinders
    = inr (blinders ++ map blinderOf (listedSecrets wallet id i outs))%list.
Proof.
  intros Hans. induction outs as [|output outs IH]; intros i blinders; simpl.
  - now rewrite app_nil_r.
  - case_decide; [apply IH|].
    unfold storedSecret. destruct (Hans i) as [[data|] ->]; [|apply IH].
    destruct (uo_blindingData data) as [bd|]; [|apply IH].
    rewrite IH. simpl. now rewrite <- app_assoc.
Qed.

Lemma listedSecrets_no_script wallet id outs :
  (∀ output, output ∈ outs → out_script output = []) →
  ∀ i, listedSecrets wallet id i outs = [].
Proof.
  induction outs as [|output outs IH]; intros Hfee i; simpl; [reflexivity|].
  rewrite decide_True by (rewrite (Hfee output); [reflexivity|left]).
  apply IH. intros output' Hin. apply Hfee. now right.
Qed.

Lemma listedSecrets_none wallet id outs :
  (∀ i, storedSecret wallet id i = None) →
  ∀ i, listedSecrets wallet id i outs = [].
Proof.
  intros Hnone. induction outs as [|output outs IH]; intros i; simpl; [reflexivity|].
  rewrite Hnone, IH. now case_decide.
Qed.

(** X16: [makeURLwithBlinders] fails with ['web explorer url not found']
    exactly when the explorer URL is missing or the empty string, whatever
    the transaction and the wallet repository are. *)
Theorem makeURLwithBlinders_url_not_found transaction getWebExplorerURL wallet :
  makeURLwithBlinders transaction getWebExplorerURL wallet = inl WebExplorerURLNotFound
  ↔ getWebExplorerURL = inr None ∨ getWebExplorerURL = inr (Some "").
Proof.
  unfold makeURLwithBlinders. split.
  - destruct getWebExplorerURL as [reason|[[|c url]|]]; auto; [discriminate|].
    destruct (pushBlinders _ _ _ _ _); discriminate.
  - intros [->| ->]; reflexivity.
Qed.

(** X17: with an explorer URL and a wallet repository that resolves its
    lookups, the URL returned is [<explorer>/tx/<txid>#blinded=] followed by
    the comma-separated blinders of the outputs that have a script and a
    stored secret, in output order; outputs without a script (the fee) are
    never listed, and with no secret stored the list is empty. *)
Theorem makeURLwithBlinders_lists_stored_secrets transaction url wallet :
  url ≠ "" →
  (∀ i, ∃ r, getOutputBlindingData wallet (Transaction_getId transaction) i = inr r) →
  makeURLwithBlinders transaction (inr (Some url)) wallet
  = inr (url ++ "/tx/" ++ Transaction_getId transaction ++ "#blinded="
         ++ String.concat ","
              (map blinderOf
                 (listedSecrets wallet (Transaction_getId transaction) 0
                    (tx_outs transaction))))%string
  ∧ ((∀ output, output ∈ tx_outs transaction → out_script output = []) →
     listedSecrets wallet (Transaction_getId transaction) 0 (tx_outs transaction) = [])
  ∧ ((∀ i, storedSecret wallet (Transaction_getId transaction) i = None) →
     makeURLwithBlinders transaction (inr (Some url)) wallet
     = inr (url ++ "/tx/" ++ Transaction_getId transaction ++ "#blinded=")%string).
Proof.
  intros Hurl Hans.
  assert (Hmake : makeURLwithBlinders transaction (inr (Some url)) wallet
                  = inr (url ++ "/tx/" ++ Transaction_getId transaction ++ "#blinded="
                         ++ String.concat ","
                              (map blinderOf
                                 (listedSecrets wallet (Transaction_getId transaction) 0
                                    (tx_outs transaction))))%string).
  { unfold makeURLwithBlinders. destruct url as [|c url]; [congruence|].
    now rewrite (pushBlinders_listed _ _ _ Hans). }
  split; [exact Hmake|]. split.
  - intros Hfee. now apply listedSecrets_no_script.
  - intros Hnone. rewrite Hmake, (listedSecrets_none _ _ _ Hnone). reflexivity.
Qed.

End Explorer.

(** * The claims on the fixtures *)

Import Fixture.

Lemma self_transfer_reports_zero_witness :
  ∃ r w',
    computeTxDetailsExtended (appWith (Some liquid) (Some liveSource)) wallet
      (record (Some 10) "01") fresh = (Returned r, w')
    ∧ txFlow r = {["6f" := 0]}.
Proof.
  refine (self_transfer_reports_zero (appWith (Some liquid) (Some liveSource)) wallet
            (record (Some 10) "01") "01" selfTransfer fresh 500 {["6f" := -500]} (-500)
            10 liquid _ _ _ _ _ _ _ _ _ _ _); try reflexivity; try discriminate.
  right. exists liveSource, (Some (header 10)). repeat split.
Defined.

(** C1 as stated fails on an unconfirmed record: the self-transfer of the
    fixture keeps its native entry at minus the fee. *)
Lemma self_transfer_unconfirmed_counterexample :
  hex (record None "01") = Some "01"
  ∧ (passes wallet selfTransfer fresh).1 = Returned (500, {["6f" := -500]})
  ∧ (computeTxDetailsExtended (appWith (Some liquid) (Some liveSource)) wallet
       (record None "01") fresh).1
    = Returned {| x_height := None; x_hex := Some "01"; txID := "feed";
                  txFlow := {["6f" := -500]}; feeAmount := 500; blockHeader := None |}
  ∧ ¬ ∃ r w',
        computeTxDetailsExtended (appWith (Some liquid) (Some liveSource)) wallet
          (record None "01") fresh = (Returned r, w')
        ∧ txFlow r = {["6f" := 0]}.
Proof.
  repeat split; try (vm_compute; reflexivity).
  intros (r & w' & Hrun & Hflow).
  vm_compute in Hrun. injection Hrun as <- <-.
  vm_compute in Hflow. discriminate.
Qed.

Lemma fee_only_native_entry_removed_witness :
  ∃ r w',
    computeTxDetailsExtended (appWith (Some liquid) (Some liveSource)) wallet
      (record (Some 10) "02") fresh = (Returned r, w')
    ∧ txFlow r !! "6f" = None
    ∧ ∀ asset, asset ≠ "6f" →
        txFlow r !! asset = ({["aa" := 7; "6f" := -500]} : gmap string Z) !! asset.
Proof.
  refine (fee_only_native_entry_removed (appWith (Some liquid) (Some liveSource)) wallet
            (record (Some 10) "02") "02" receiveOther fresh 500
            {["aa" := 7; "6f" := -500]} (-500) "aa" 10 liquid _ _ _ _ _ _ _ _ _ _ _ _);
    try (vm_compute; reflexivity); try discriminate.
  - exists 7. vm_compute; reflexivity.
  - right. exists liveSource, (Some (header 10)). repeat split.
Defined.

(** C2 as stated fails on an unconfirmed record: the native entry, all of it
    fee, stays in the flow next to the other asset. *)
Lemma fee_only_native_entry_kept_counterexample :
  hex (record None "02") = Some "02"
  ∧ (passes wallet receiveOther fresh).1
    = Returned (500, {["aa" := 7; "6f" := -500]})
  ∧ ∃ r,
      (computeTxDetailsExtended (appWith (Some liquid) (Some liveSource)) wallet
         (record None "02") fresh).1 = Returned r
      ∧ txFlow r !! "6f" = Some (-500).
Proof.
  repeat split; try (vm_compute; reflexivity).
  eexists. split; vm_compute; reflexivity.
Qed.

Lemma burn_output_rule_witness :
  (outputBody wallet "feed" (0 + 1) explicitBurn (0, ∅) fresh = (Returned (0, ∅), fresh)
   ∧ forIndex (outputBody wallet "feed") 0 ([feeOutput] ++ explicitBurn :: [feeOutput])
       (0, ∅) fresh
     = (let* st' := forIndex (outputBody wallet "feed") 0 [feeOutput] (0, ∅) in
        forIndex (outputBody wallet "feed") 2 [feeOutput] st') fresh)
  ∧ outputBody wallet "feed" 0 (Build_Output burnScript commitment other) (0, ∅) fresh
    = (Returned (0, credit "aa" 7 ∅), fresh).
Proof.
  destruct (@burn_output_rule lib) as [Hexplicit Hconfidential].
  split.
  - apply (Hexplicit wallet "feed" [feeOutput] explicitBurn [feeOutput] 0%nat (0, ∅) fresh);
      [discriminate|reflexivity|reflexivity].
  - refine (Hconfidential wallet "feed" 0%nat (Build_Output burnScript commitment other)
              (0, ∅) fresh _ (Build_UnblindingData 7 "aa" "00" "00") _ _ eq_refl eq_refl);
      [discriminate|reflexivity].
Defined.

(** C3 as stated fails on a confidential output: with a stored secret it is
    counted although its script is an OP_RETURN. *)
Lemma confidential_burn_counterexample :
  out_script (Build_Output burnScript commitment other) ≠ []
  ∧ includesOpReturn burnScript = true
  ∧ isConfidential (ElementsValue_fromBytes commitment) = true
  ∧ outputBody wallet "feed" 0 (Build_Output burnScript commitment other) (0, ∅) fresh
    = (Returned (0, {["aa" := 7]}), fresh)
  ∧ (computeTxDetailsExtended (appWith None None) wallet (record None "03") fresh).1
    = Returned {| x_height := None; x_hex := Some "03"; txID := "feed";
                  txFlow := {["aa" := 7]}; feeAmount := 500; blockHeader := None |}
  ∧ ({["aa" := 7]} : gmap string Z) ≠ ∅.
Proof.
  repeat split; try (vm_compute; reflexivity); discriminate.
Qed.




Lemma network_not_found_when_confirmed_witness :
  computeTxDetailsExtended (appWith None (Some liveSource)) wallet
    (record (Some 10) "01") fresh = (Thrown NetworkNotFound, fresh)
  ∧ (∃ r, computeTxDetailsExtended (appWith (Some liquid) None) wallet
            (record (Some 10) "01") fresh = (Returned r, fresh)
          ∧ blockHeader r = None ∧ txFlow r = {["6f" := -500]} ∧ feeAmount r = 500)
  ∧ (computeTxDetailsExtended (appWith None None) wallet (record None "01") fresh).1
    ≠ Thrown NetworkNotFound.
Proof.
  destruct (@network_not_found_when_confirmed lib) as (Hthrow & Hplain & Hnever).
  split; [|split].
  - apply (Hthrow (appWith None (Some liveSource)) wallet (record (Some 10) "01") "01"
             selfTransfer fresh (500, {["6f" := -500]}) 10);
      try reflexivity; discriminate.
  - refine (Hplain (appWith (Some liquid) None) wallet (record (Some 10) "01") "01"
              selfTransfer fresh (500, {["6f" := -500]}) 10 liquid _ _ _ _ _ _ _ _ _);
      try reflexivity; discriminate.
  - apply Hnever. now left.
Defined.

(** C5 as stated fails when the chain source is unavailable: the call
    returns, without block header and without error. *)
Lemma chain_source_unavailable_counterexample :
  height (record (Some 10) "01") = Some 10
  ∧ getChainSource (appWith (Some liquid) None) liquid = inr None
  ∧ (computeTxDetailsExtended (appWith (Some liquid) None) wallet
       (record (Some 10) "01") fresh).1
    = Returned {| x_height := Some 10; x_hex := Some "01"; txID := "feed";
                  txFlow := {["6f" := -500]}; feeAmount := 500; blockHeader := None |}
  ∧ (computeTxDetailsExtended (appWith (Some liquid) None) wallet
       (record (Some 10) "01") fresh).1
    ≠ Thrown NetworkNotFound.
Proof.
  repeat split; try (vm_compute; reflexivity).
  vm_compute. discriminate.
Qed.

Lemma tx_hex_not_found_iff_witness :
  computeTxDetailsExtended (appWith None None) wallet {| height := Some 10; hex := None |}
    fresh = (Thrown TxHexNotFound, fresh)
  ∧ ((computeTxDetailsExtended (appWith None None) wallet
        {| height := Some 10; hex := None |} fresh).1 = Thrown TxHexNotFound →
     hex {| height := Some 10; hex := None |} = None
     ∨ hex {| height := Some 10; hex := None |} = Some "").
Proof.
  destruct (@tx_hex_not_found_iff lib (appWith None None) wallet
              {| height := Some 10; hex := None |} fresh) as [Hthrow Honly].
  split; [apply Hthrow; now left|exact Honly].
Defined.

(** C6 as stated fails on the empty string: [hex] is present and the call
    fails with ['tx hex not found'] all the same. *)
Lemma empty_hex_counterexample :
  is_Some (hex {| height := None; hex := Some "" |})
  ∧ computeTxDetailsExtended (appWith (Some liquid) (Some liveSource)) wallet
      {| height := None; hex := Some "" |} fresh
    = (Thrown TxHexNotFound, fresh).
Proof. split; [eexists|]; reflexivity. Qed.

Lemma connection_left_open_when_fetch_rejects_witness :
  ∃ w', computeTxDetailsExtended (appWith (Some liquid) (Some brokenSource)) wallet
          (record (Some 10) "01") fresh = (Thrown (Foreign "connection reset"), w')
        ∧ journal w' = [Acquired; Fetched 10]
        ∧ acquisitions (journal w') = 1%nat
        ∧ releases (journal w') = 0%nat.
Proof.
  refine (connection_left_open_when_fetch_rejects
            (appWith (Some liquid) (Some brokenSource)) wallet (record (Some 10) "01") "01"
            selfTransfer fresh (500, {["6f" := -500]}) 10 liquid brokenSource
            "connection reset" _ _ _ _ _ _ _ _ _ _); try reflexivity; discriminate.
Defined.

Lemma second_lookup_hits_store_witness :
  ∃ r1 w1,
    computeTxDetailsExtended (appWith (Some liquid) (Some liveSource)) wallet
      (record (Some 10) "01") fresh = (Returned r1, w1)
    ∧ blockHeader r1 = Some (header 10)
    ∧ fetches (journal w1) = 1%nat
    ∧ ∀ o2 w2,
        computeTxDetailsExtended (appWith (Some liquid) (Some liveSource)) wallet
          (record (Some 10) "02") w1 = (o2, w2) →
        w2 = w1 ∧ (fetches (journal w2) ≤ 1)%nat
        ∧ (∀ r2, o2 = Returned r2 → blockHeader r2 = blockHeader r1)
        ∧ ∃ r2, o2 = Returned r2.
Proof.
  destruct (computeTxDetailsExtended (appWith (Some liquid) (Some liveSource)) wallet
              (record (Some 10) "01") fresh) as [o1 w1] eqn:Hrun1.
  assert (Ho1 : ∃ r1, o1 = Returned r1 ∧ blockHeader r1 = Some (header 10)).
  { vm_compute in Hrun1. injection Hrun1 as <- _. eexists; split; reflexivity. }
  destruct Ho1 as (r1 & -> & Hbh).
  assert (Hkept : headers w1 !! (liquid, 10) = Some (header 10)).
  { vm_compute in Hrun1. injection Hrun1 as _ <-. reflexivity. }
  destruct (second_lookup_hits_store (appWith (Some liquid) (Some liveSource)) wallet
              (record (Some 10) "01") (record (Some 10) "02") 10 liquid fresh r1 w1)
    as (_ & Hfetch & Hsecond);
    [reflexivity|reflexivity|discriminate|reflexivity|reflexivity|exact Hrun1|
     rewrite Hkept; eauto|].
  exists r1, w1. split; [reflexivity|]. split; [exact Hbh|]. split; [exact Hfetch|].
  intros o2 w2 Hrun2.
  destruct (Hsecond o2 w2 Hrun2) as (Hw & Hle & Hsame & Hreturns).
  repeat split; try assumption.
  apply (Hreturns "02" receiveOther (500, {["aa" := 7; "6f" := -500]}));
    [reflexivity|discriminate|reflexivity|].
  vm_compute. reflexivity.
Defined.

Lemma computeBalances_order_invariant_witness :
  computeBalances
    [ Build_UnblindedOutput "feed" 0 (Some (Build_UnblindingData 7 "aa" "00" "00"));
      Build_UnblindedOutput "feed" 1 None;
      Build_UnblindedOutput "abcd" 0 (Some (Build_UnblindingData 5 "6f" "00" "00")) ]
  = computeBalances
      [ Build_UnblindedOutput "abcd" 0 (Some (Build_UnblindingData 5 "6f" "00" "00"));
        Build_UnblindedOutput "feed" 0 (Some (Build_UnblindingData 7 "aa" "00" "00"));
        Build_UnblindedOutput "feed" 1 None ].
Proof.
  apply (proj2 computeBalances_order_invariant).
  - exact (Permutation_app_comm
             [ Build_UnblindedOutput "feed" 0 (Some (Build_UnblindingData 7 "aa" "00" "00"));
               Build_UnblindedOutput "feed" 1 None ]
             [ Build_UnblindedOutput "abcd" 0
                 (Some (Build_UnblindingData 5 "6f" "00" "00")) ]).
  - intros a. change (2 ^ 53) with 9007199254740992. simpl.
    repeat case_decide; lia.
Defined.

(** C9 as stated fails past 2^53: five values of 21e14 and two of 1 sum to
    10500000000000000 when the small ones come last (each is rounded away)
    and to 10500000000000002 when they come first. *)
Lemma computeBalances_rounding_counterexample :
  Permutation (bigs ++ ones) (ones ++ bigs)
  ∧ computeBalances (bigs ++ ones) = {["aa" := 10500000000000000]}
  ∧ computeBalances (ones ++ bigs) = {["aa" := 10500000000000002]}
  ∧ computeBalances (bigs ++ ones) ≠ computeBalances (ones ++ bigs).
Proof.
  split; [apply Permutation_app_comm|].
  split; [vm_compute; reflexivity|]. split; [vm_compute; reflexivity|].
  intros Heq. vm_compute in Heq. discriminate.
Qed.

Lemma no_correction_without_header_stage_witness :
  ∃ r, computeTxDetailsExtended (appWith (Some liquid) None) wallet
         (record (Some 10) "01") fresh = (Returned r, fresh)
       ∧ txFlow r = {["6f" := -500]} ∧ feeAmount r = 500 ∧ blockHeader r = None
       ∧ ∀ network v,
           ({["6f" := -500]} : gmap string Z) !! networks_assetHash network = Some v →
           v + 500 = 0 →
           txFlow r !! networks_assetHash network = Some (- 500).
Proof.
  refine (no_correction_without_header_stage (appWith (Some liquid) None) wallet
            (record (Some 10) "01") "01" selfTransfer fresh 500 {["6f" := -500]}
            _ _ _ _ _); try reflexivity; try discriminate.
  right; right. exists 10, liquid. repeat split. discriminate.
Defined.

(** * The further properties on the fixtures *)

Lemma computeBalances_sums_per_asset_witness :
  12 = total "aa" (omap entryOf holdings)
  ∧ ∀ utxo bd, utxo ∈ holdings → uo_blindingData utxo = Some bd → ud_asset bd ≠ "6f".
Proof.
  destruct (computeBalances_sums_per_asset holdings "aa" eq_refl) as [_ Hsum].
  destruct (computeBalances_sums_per_asset holdings "6f" eq_refl) as [[Hnone _] _].
  split; [apply Hsum; [vm_compute; discriminate|reflexivity]|apply Hnone; reflexivity].
Defined.

Lemma computeBalances_app_witness :
  computeBalances (holdings ++ ones) !! "aa"
  = union_with (λ x y, Some (x + y)) (computeBalances holdings !! "aa")
      (computeBalances ones !! "aa").
Proof.
  apply (computeBalances_app holdings ones "aa"); [reflexivity|].
  vm_compute. discriminate.
Defined.

Lemma computeBalances_nonnegative_witness :
  0 ≤ 12.
Proof.
  refine (computeBalances_nonnegative holdings _ "aa" 12 _); [|reflexivity].
  intros utxo bd Hin Hbd. unfold holdings in Hin.
  repeat (apply elem_of_cons in Hin as [->|Hin]);
    try (now apply elem_of_nil in Hin);
    simpl in Hbd; try discriminate; injection Hbd as <-; simpl; lia.
Defined.

Lemma reverseHex_involutive_witness :
  reverseHex (reverseHex "00ff1a") = "00ff1a"
  ∧ String.length (reverseHex "00ff1a") = String.length "00ff1a".
Proof. apply (reverseHex_involutive "00ff1a"). reflexivity. Defined.

Lemma feeAmount_is_last_fee_output_witness :
  ∃ r w',
    computeTxDetailsExtended (appWith (Some liquid) (Some liveSource)) wallet
      (record (Some 10) "01") fresh = (Returned r, w')
    ∧ feeAmount r = default 0 (last (feeValues (tx_outs selfTransfer))).
Proof.
  destruct (computeTxDetailsExtended (appWith (Some liquid) (Some liveSource)) wallet
              (record (Some 10) "01") fresh) as [[r|e] w'] eqn:Hrun;
    [|vm_compute in Hrun; discriminate].
  exists r, w'. split; [reflexivity|].
  refine (feeAmount_is_last_fee_output (appWith (Some liquid) (Some liveSource)) wallet
            (record (Some 10) "01") "01" selfTransfer fresh r w' _ _ Hrun); reflexivity.
Defined.

Lemma flow_is_credits_minus_debits_witness :
  ({["aa" := 7; "6f" := -500]} : gmap string Z) !! "6f"
  = if mentions "6f" (creditedBy wallet (Transaction_getId receiveOther) 0
                        (tx_outs receiveOther))
       || mentions "6f" (debitedBy wallet (tx_ins receiveOther))
    then Some (total "6f" (creditedBy wallet (Transaction_getId receiveOther) 0
                             (tx_outs receiveOther))
               - total "6f" (debitedBy wallet (tx_ins receiveOther)))
    else None.
Proof.
  refine (proj2 (flow_is_credits_minus_debits wallet receiveOther fresh 500
                   {["aa" := 7; "6f" := -500]} "6f" _ eq_refl) _).
  - vm_compute. reflexivity.
  - vm_compute. discriminate.
Defined.

Lemma flow_reads_only_its_outpoints_witness :
  computeTxDetailsExtended (appWith (Some liquid) (Some liveSource)) wallet
    (record (Some 10) "02") fresh
  = computeTxDetailsExtended (appWith (Some liquid) (Some liveSource)) widerWallet
      (record (Some 10) "02") fresh.
Proof.
  refine (flow_reads_only_its_outpoints (appWith (Some liquid) (Some liveSource))
            wallet widerWallet (record (Some 10) "02") "02" receiveOther fresh _ _ _ _);
    try reflexivity.
  intros input Hin. apply list_elem_of_singleton in Hin as ->. split; reflexivity.
Defined.

Lemma lockTransactionInputs_locks_spent_outpoints_witness :
  lockTransactionInputs (λ _, inr tt) "zz" fresh
    = (Thrown (Foreign "invalid transaction hex"), fresh)
  ∧ lockTransactionInputs (λ _, inr tt) "01" fresh
    = await ((λ _, inr tt) (map inputOutpoint (tx_ins selfTransfer))) fresh
  ∧ forIndex (inputBody blindWallet) 0 (tx_ins selfTransfer) ∅ fresh = (Returned ∅, fresh).
Proof.
  destruct (@lockTransactionInputs_locks_spent_outpoints lib (λ _, inr tt) "zz" fresh)
    as [Hbad _].
  destruct (@lockTransactionInputs_locks_spent_outpoints lib (λ _, inr tt) "01" fresh)
    as [_ Hgood].
  destruct (Hgood selfTransfer eq_refl) as (Hlock & _ & _ & Hidle).
  split; [apply Hbad; reflexivity|]. split; [exact Hlock|].
  apply Hidle. intros outpoint _. reflexivity.
Defined.

Lemma returned_record_keeps_input_witness :
  ∃ r w',
    computeTxDetailsExtended (appWith None None) wallet (record None "01") fresh
      = (Returned r, w')
    ∧ x_height r = None ∧ x_hex r = Some "01" ∧ blockHeader r = None.
Proof.
  destruct (computeTxDetailsExtended (appWith None None) wallet (record None "01") fresh)
    as [[r|e] w'] eqn:Hrun; [|vm_compute in Hrun; discriminate].
  destruct (returned_record_keeps_input _ _ _ _ _ _ Hrun) as (Hh & Hx & _ & Hbh).
  exists r, w'. repeat split; [exact Hh|exact Hx|apply Hbh; now left].
Defined.

Lemma chain_source_accounting_witness :
  ∃ o w' suffix,
    computeTxDetailsExtended (appWith (Some liquid) (Some brokenSource)) wallet
      (record (Some 10) "01") fresh = (o, w')
    ∧ journal w' = (journal fresh ++ suffix)%list
    ∧ (acquisitions suffix ≤ 1)%nat
    ∧ fetches suffix = acquisitions suffix
    ∧ (releases suffix ≤ acquisitions suffix)%nat.
Proof.
  destruct (computeTxDetailsExtended (appWith (Some liquid) (Some brokenSource)) wallet
              (record (Some 10) "01") fresh) as [o w'] eqn:Hrun.
  destruct (chain_source_accounting _ _ _ _ _ _ Hrun)
    as (suffix & Hj & Hacq & Hfetch & Hrel & _).
  exists o, w', suffix. repeat split; assumption.
Defined.

Lemma no_header_work_without_need_witness :
  (computeTxDetailsExtended (appWith (Some liquid) (Some liveSource)) wallet
     (record None "02") fresh).2 = fresh.
Proof.
  apply (proj1 (no_header_work_without_need (appWith (Some liquid) (Some liveSource))
                  wallet (record None "02") fresh)).
  now left.
Defined.

Lemma correction_touches_native_only_witness :
  ∃ r w',
    computeTxDetailsExtended (appWith (Some liquid) (Some liveSource)) wallet
      (record (Some 10) "02") fresh = (Returned r, w')
    ∧ txFlow r !! "aa" = ({["aa" := 7; "6f" := -500]} : gmap string Z) !! "aa".
Proof.
  destruct (computeTxDetailsExtended (appWith (Some liquid) (Some liveSource)) wallet
              (record (Some 10) "02") fresh) as [[r|e] w'] eqn:Hrun;
    [|vm_compute in Hrun; discriminate].
  exists r, w'. split; [reflexivity|].
  refine (proj1 (correction_touches_native_only
                   (appWith (Some liquid) (Some liveSource)) wallet
                   (record (Some 10) "02") "02" receiveOther fresh 500
                   {["aa" := 7; "6f" := -500]} r w' _ _ _ Hrun) "aa" _);
    try reflexivity.
  intros []; discriminate.
Defined.

Lemma failures_before_header_stage_witness :
  computeTxDetailsExtended (appWith None None) wallet (record (Some 10) "zz") fresh
    = (Thrown (Foreign "invalid transaction hex"), fresh)
  ∧ computeTxDetailsExtended (appWith None None) offlineWallet (record (Some 10) "02") fresh
    = (Thrown (Foreign "storage offline"), fresh).
Proof.
  split.
  - refine (proj1 (failures_before_header_stage (appWith None None) wallet
                     (record (Some 10) "zz") "zz" fresh _ _) _ _);
      try reflexivity; discriminate.
  - refine (proj1 (proj2 (failures_before_header_stage (appWith None None) offlineWallet
                            (record (Some 10) "02") "02" fresh _ _)
                     receiveOther _ _ _));
      try reflexivity; discriminate.
Defined.

Lemma header_not_yet_available_witness :
  computeTxDetailsExtended (appWith (Some liquid) (Some earlySource)) wallet
    (record (Some 10) "01") fresh
  = (Returned {| x_height := Some 10; x_hex := Some "01"; txID := "feed";
                 txFlow := {["6f" := 0]}; feeAmount := 500; blockHeader := None |},
     {| headers := ∅; journal := [Acquired; Fetched 10; Closed] |}).
Proof.
  refine (header_not_yet_available (appWith (Some liquid) (Some earlySource)) wallet
            (record (Some 10) "01") "01" selfTransfer fresh 500 {["6f" := -500]}
            10 liquid earlySource _ _ _ _ _ _ _ _ _ _ _);
    try reflexivity; discriminate.
Defined.

Lemma makeURLwithBlinders_url_not_found_witness :
  makeURLwithBlinders selfTransfer (inr (Some "")) wallet = inl WebExplorerURLNotFound.
Proof.
  apply (proj2 (makeURLwithBlinders_url_not_found selfTransfer (inr (Some "")) wallet)).
  now right.
Defined.

Lemma makeURLwithBlinders_lists_stored_secrets_witness :
  makeURLwithBlinders receiveOther (inr (Some "https://explorer")) wallet
  = inr "https://explorer/tx/feed#blinded=7,aa,00,00"
  ∧ makeURLwithBlinders receiveOther (inr (Some "https://explorer")) blindWallet
    = inr "https://explorer/tx/feed#blinded=".
Proof.
  split.
  - refine (proj1 (makeURLwithBlinders_lists_stored_secrets receiveOther
                     "https://explorer" wallet _ _)); [discriminate|].
    intros i. destruct i; simpl; eauto.
  - refine (proj2 (proj2 (makeURLwithBlinders_lists_stored_secrets receiveOther
                            "https://explorer" blindWallet _ _)) _);
      [discriminate|intros i; simpl; eauto|reflexivity].
Defined.
